(** * Process Flow Editor: the flow store, the step sequencer, the impact
    aggregation and the JSON import/export of [src/src/App.js].

    The React component [ProcessFlowEditor] keeps three pieces of state that
    the handlers read and write: [flows], [currentFlow] and [selectedSteps].
    Every handler is embedded as a function from the state of the render it
    closes over, and the values it reads from the clock, the prompt or the
    file, to the state after its [set...] calls.

    Numbers.  JavaScript numbers are IEEE 754 binary64 values; the arithmetic
    of [calculateEnvironmentalImpact] is carried out on Rocq's primitive
    floats, which are the same binary64 values.  The number fields of steps
    and flows hold integers (as every entry of the library does), kept as [Z]
    and converted with [Z2float] where the code computes with them.

    Documents.  [JSON.parse] and [JSON.stringify] are a parser and a printer
    of JSON texts, strings being kept as bytes; a parsed object is read as a
    flow when its properties have the types of a flow's, and [importEffect]
    gives what the import does with any document. *)

From Stdlib Require Import ZArith List String Ascii Bool Lia Floats.
From Stdlib Require Import DecimalString DecimalPos DecimalZ Permutation.
Import ListNotations.

#[local] Set Warnings "-register-all".

Local Open Scope Z_scope.
Local Open Scope list_scope.

(** ** JavaScript values used by the handlers *)

(** [ToString] of an integer-valued number below 1e21 in magnitude: its
    decimal digits, with a leading minus sign when negative. *)
Definition ToString_int (z : Z) : string :=
  NilZero.string_of_int (Z.to_int z).

(** The binary64 value of an integer: round to nearest, ties to even; exact
    for every integer up to 2^53 in magnitude. *)
Definition Z2float (z : Z) : float :=
  SF2Prim (binary_normalize 53 1024 z 0 false).

(** A value that is either a number or a string, as [totalEnergy] is. *)
Inductive jsval : Type :=
  | JSNumber (x : float)
  | JSString (s : string).

(** ** Data model *)

Module Step.
(** An entry of the library, or a step of a flow.  Library entries have no
    [stepIndex] property; [addStepToFlow] adds it. *)
Record t : Type := mk {
  id : string;
  name : string;
  duration : Z;
  power : Z;
  chemicals : list string;
  temperature : Z;
  envImpact : string;
  stepIndex : option Z
}.
End Step.

Module Flow.
(** A flow object.  [steps] is [None] when the object has no [steps]
    property, which an imported document may lack. *)
Record t : Type := mk {
  id : Z;
  name : string;
  description : string;
  steps : option (list Step.t);
  createdAt : string;
  modifiedAt : string
}.
End Flow.

(** [x || []] for an optional array. *)
Definition or_empty {A : Type} (x : option (list A)) : list A :=
  match x with
  | Some l => l
  | None => []
  end.

(** The component state the handlers close over. *)
Record State : Type := mkState {
  flows : list Flow.t;
  currentFlow : option Flow.t;
  selectedSteps : list Step.t
}.

Definition initialState : State :=
  {| flows := []; currentFlow := None; selectedSteps := [] |}.

(** ** The library of process steps *)

Definition template (i n : string) (d p : Z) (c : list string) (t : Z)
    (e : string) : Step.t :=
  Step.mk i n d p c t e None.

Definition cvd_oxide : Step.t :=
  template "cvd_oxide" "CVD Oxide" 120 2500 ["TEOS"; "O2"]%string 400 "medium".
Definition pvd_metal : Step.t :=
  template "pvd_metal" "PVD Metal" 90 3000 ["Ar"; "Ti"]%string 25 "low".
Definition ald_hfO2 : Step.t :=
  template "ald_hfO2" "ALD HfO2" 180 1500 ["TDMAH"; "H2O"]%string 300 "high".
Definition dry_etch_oxide : Step.t :=
  template "dry_etch_oxide" "Dry Etch Oxide" 60 2000 ["CF4"; "CHF3"]%string 25
    "medium".
Definition wet_etch_metal : Step.t :=
  template "wet_etch_metal" "Wet Etch Metal" 30 0 ["H2SO4"; "H2O2"]%string 80
    "high".
Definition photoresist_coat : Step.t :=
  template "photoresist_coat" "Photoresist Coating" 45 500
    ["Photoresist"; "PGMEA"]%string 25 "low".
Definition euv_exposure : Step.t :=
  template "euv_exposure" "EUV Exposure" 180 5000 [] 25 "very_high".
Definition rca_clean : Step.t :=
  template "rca_clean" "RCA Clean" 20 100 ["NH4OH"; "H2O2"; "HCl"]%string 70
    "medium".
Definition megasonic_clean : Step.t :=
  template "megasonic_clean" "Megasonic Clean" 15 800 ["DI Water"]%string 25
    "low".

Definition PROCESS_STEPS_LIBRARY : list (string * list Step.t) :=
  [ ("Deposition"%string, [cvd_oxide; pvd_metal; ald_hfO2]);
    ("Etching"%string, [dry_etch_oxide; wet_etch_metal]);
    ("Lithography"%string, [photoresist_coat; euv_exposure]);
    ("Cleaning"%string, [rca_clean; megasonic_clean]) ].

(** ** Flow store and step sequencer *)

(** [flows.map(f => f.id === currentFlow.id ? updatedFlow : f)] *)
Definition replaceFlow (cf updatedFlow : Flow.t) (fs : list Flow.t)
    : list Flow.t :=
  map (fun f => if Flow.id f =? Flow.id cf then updatedFlow else f) fs.

(** [createNewFlow]: [now] is the value of [Date.now()], [iso1] and [iso2]
    the two values of [new Date().toISOString()]. *)
Definition createNewFlow (st : State) (now : Z) (iso1 iso2 : string) : State :=
  let newFlow :=
    {| Flow.id := now;
       Flow.name :=
         ("Process Flow " ++
          ToString_int (Z.of_nat (List.length (flows st)) + 1))%string;
       Flow.description := EmptyString;
       Flow.steps := Some [];
       Flow.createdAt := iso1;
       Flow.modifiedAt := iso2 |} in
  {| flows := flows st ++ [newFlow];
     currentFlow := Some newFlow;
     selectedSteps := [] |}.

(** The object [{...step, id: `${step.id}_${Date.now()}`, stepIndex: n}]. *)
Definition newStepOf (step : Step.t) (now : Z) (n : nat) : Step.t :=
  {| Step.id := (Step.id step ++ "_" ++ ToString_int now)%string;
     Step.name := Step.name step;
     Step.duration := Step.duration step;
     Step.power := Step.power step;
     Step.chemicals := Step.chemicals step;
     Step.temperature := Step.temperature step;
     Step.envImpact := Step.envImpact step;
     Step.stepIndex := Some (Z.of_nat n) |}.

(** [{...currentFlow, steps: updatedSteps, modifiedAt: iso}] *)
Definition withSteps (cf : Flow.t) (updatedSteps : list Step.t) (iso : string)
    : Flow.t :=
  {| Flow.id := Flow.id cf;
     Flow.name := Flow.name cf;
     Flow.description := Flow.description cf;
     Flow.steps := Some updatedSteps;
     Flow.createdAt := Flow.createdAt cf;
     Flow.modifiedAt := iso |}.

(** [addStepToFlow(step)]; the copy button of a step calls it with that step
    of the flow, the library with an entry of the library. *)
Definition addStepToFlow (st : State) (now : Z) (iso : string) (step : Step.t)
    : State :=
  match currentFlow st with
  | None => st
  | Some cf =>
      let newStep := newStepOf step now (List.length (selectedSteps st)) in
      let updatedSteps := selectedSteps st ++ [newStep] in
      let updatedFlow := withSteps cf updatedSteps iso in
      {| flows := replaceFlow cf updatedFlow (flows st);
         currentFlow := Some updatedFlow;
         selectedSteps := updatedSteps |}
  end.

(** [arr.filter((x, index) => p(x, index))], the indices counting from
    [start]. *)
Fixpoint filter_from {A : Type} (p : A -> nat -> bool) (start : nat)
    (l : list A) : list A :=
  match l with
  | [] => []
  | x :: r =>
      if p x start then x :: filter_from p (S start) r
      else filter_from p (S start) r
  end.

Definition filter_index {A : Type} (p : A -> nat -> bool) (l : list A)
    : list A :=
  filter_from p 0 l.

(** [removeStep(stepIndex)] *)
Definition removeStep (st : State) (iso : string) (stepIndex : Z) : State :=
  let updatedSteps :=
    filter_index (fun _ index => negb (Z.of_nat index =? stepIndex))
      (selectedSteps st) in
  match currentFlow st with
  | Some cf =>
      let updatedFlow := withSteps cf updatedSteps iso in
      {| flows := replaceFlow cf updatedFlow (flows st);
         currentFlow := Some updatedFlow;
         selectedSteps := updatedSteps |}
  | None =>
      {| flows := flows st;
         currentFlow := None;
         selectedSteps := updatedSteps |}
  end.

(** [saveFlow]: [answer] is what [prompt] returned, [None] for [null]. *)
Definition saveFlow (st : State) (answer : option string) (iso : string)
    : State :=
  match currentFlow st with
  | None => st
  | Some cf =>
      match answer with
      | None => st
      | Some EmptyString => st
      | Some flowName =>
          let updatedFlow :=
            {| Flow.id := Flow.id cf;
               Flow.name := flowName;
               Flow.description := Flow.description cf;
               Flow.steps := Flow.steps cf;
               Flow.createdAt := Flow.createdAt cf;
               Flow.modifiedAt := iso |} in
          {| flows := replaceFlow cf updatedFlow (flows st);
             currentFlow := Some updatedFlow;
             selectedSteps := selectedSteps st |}
      end
  end.

(** Clicking a flow of the list of saved flows. *)
Definition selectFlow (st : State) (flow : Flow.t) : State :=
  {| flows := flows st;
     currentFlow := Some flow;
     selectedSteps := or_empty (Flow.steps flow) |}.

(** ** Impact aggregation *)

(** [arr.includes(x)] on an array of strings. *)
Definition includes (arr : list string) (x : string) : bool :=
  existsb (String.eqb x) arr.

(** [[...new Set(arr)]]: a Set keeps its elements in insertion order and
    ignores the insertion of an element it already has. *)
Definition Set_add (acc : list string) (x : string) : list string :=
  if includes acc x then acc else acc ++ [x].

Definition Set_spread (arr : list string) : list string :=
  fold_left Set_add arr [].

(** [arr.flatMap(f)] *)
Definition flatMap {A B : Type} (f : A -> list B) (arr : list A) : list B :=
  flat_map f arr.

(** [true] when the number [m * 2^e] (with [0 < m]) is at least 10^21. *)
Definition ge_1e21 (m e : Z) : bool :=
  10 ^ 21 * 2 ^ Z.max 0 (- e) <=? m * 2 ^ Z.max 0 e.

(** The integer [n] for which [n / 10 - m * 2^e] is as close to zero as
    possible, the larger one if there are two. *)
Definition nearest_tenths (m e : Z) : Z :=
  (20 * m * 2 ^ Z.max 0 e + 2 ^ Z.max 0 (- e)) / (2 * 2 ^ Z.max 0 (- e)).

(** The digits of [n / 10], a point, and the digit [n mod 10]. *)
Definition fixed1_digits (n : Z) : string :=
  (ToString_int (n / 10) ++ "." ++ ToString_int (n mod 10))%string.

(** [x.toFixed(1)] (ECMAScript, Number.prototype.toFixed): the sign is taken
    off, the magnitude is rounded to the nearest tenth on its exact value,
    and a magnitude of 10^21 or more is printed by [ToString] instead (as
    [1e+21] is), whose digits are not computed here: the result is [None]
    there, and nothing is stated of it. *)
Definition toFixed1 (x : float) : option string :=
  match Prim2SF x with
  | S754_nan => Some "NaN"%string
  | S754_infinity false => Some "Infinity"%string
  | S754_infinity true => Some "-Infinity"%string
  | S754_zero _ => Some "0.0"%string
  | S754_finite s m e =>
      if ge_1e21 (Zpos m) e then None
      else
        let digits := fixed1_digits (nearest_tenths (Zpos m) e) in
        Some (if s then ("-" ++ digits)%string else digits)
  end.

(** [selectedSteps.reduce((sum, step) => sum + (step.power * step.duration / 60), 0)] *)
Definition energySum (steps : list Step.t) : float :=
  fold_left
    (fun sum step =>
       (sum + Z2float (Step.power step) * Z2float (Step.duration step)
              / Z2float 60)%float)
    steps 0%float.

(** [selectedSteps.reduce((sum, step) => sum + step.duration, 0)] *)
Definition timeSum (steps : list Step.t) : float :=
  fold_left (fun sum step => (sum + Z2float (Step.duration step))%float)
    steps 0%float.

(** The object [calculateEnvironmentalImpact] returns.  [totalEnergy] is
    [None] only where [toFixed1] is. *)
Record Impact : Type := mkImpact {
  totalEnergy : option jsval;
  totalTime : float;
  chemicals : list string;
  riskLevel : string
}.

Definition isHighImpact (step : Step.t) : bool :=
  includes ["high"; "very_high"]%string (Step.envImpact step).

Definition calculateEnvironmentalImpact (st : State) : Impact :=
  let steps := selectedSteps st in
  if (List.length steps =? 0)%nat then
    {| totalEnergy := Some (JSNumber 0%float);
       totalTime := 0%float;
       chemicals := [];
       riskLevel := "low" |}
  else
    let totalEnergy := energySum steps in
    let totalTime := timeSum steps in
    let chemicals := Set_spread (flatMap Step.chemicals steps) in
    let highImpactSteps := List.length (filter isHighImpact steps) in
    let riskLevel :=
      if (2 <? highImpactSteps)%nat then "very_high"%string
      else if (0 <? highImpactSteps)%nat then "high"%string
      else if (5 <? List.length steps)%nat then "medium"%string
      else "low"%string in
    {| totalEnergy := option_map JSString (toFixed1 totalEnergy);
       totalTime := totalTime;
       chemicals := chemicals;
       riskLevel := riskLevel |}.

(** [summarize(sequence)] of the specification: the impact of a state whose
    selected steps are [sequence]. *)
Definition summarize (sequence : list Step.t) : Impact :=
  calculateEnvironmentalImpact
    {| flows := []; currentFlow := None; selectedSteps := sequence |}.

(** ** JSON documents *)

(** A parsed JSON value.  [JNum m e] is the number literal of value
    [m * 10^e]; [JObj] lists the members in the order of the text. *)
Inductive json : Type :=
  | JNull
  | JBool (b : bool)
  | JNum (m e : Z)
  | JStr (s : string)
  | JArr (elements : list json)
  | JObj (members : list (string * json)).

(** What parsing gives: a value, the [SyntaxError] that [JSON.parse] throws,
    or [Unsupported] for a text this development does not read (an escape
    [\uXXXX] of a code unit above 127, strings being kept as bytes). *)
Inductive parsed (A : Type) : Type :=
  | Ok (a : A)
  | SyntaxError
  | Unsupported.
Arguments Ok {A} a.
Arguments SyntaxError {A}.
Arguments Unsupported {A}.

Definition is_ws (c : ascii) : bool :=
  let n := nat_of_ascii c in
  ((n =? 32) || (n =? 9) || (n =? 10) || (n =? 13))%nat.

Fixpoint skip_ws (l : list ascii) : list ascii :=
  match l with
  | c :: r => if is_ws c then skip_ws r else l
  | [] => []
  end.

Definition digit_of (c : ascii) : option Z :=
  let n := nat_of_ascii c in
  if ((48 <=? n) && (n <=? 57))%nat then Some (Z.of_nat n - 48) else None.

Definition hex_of (c : ascii) : option Z :=
  let n := nat_of_ascii c in
  if ((48 <=? n) && (n <=? 57))%nat then Some (Z.of_nat n - 48)
  else if ((65 <=? n) && (n <=? 70))%nat then Some (Z.of_nat n - 55)
  else if ((97 <=? n) && (n <=? 102))%nat then Some (Z.of_nat n - 87)
  else None.

(** Reads the digits at the head of [l]: their value after [acc], how many
    there are after [count], and the rest of the text. *)
Fixpoint take_digits (l : list ascii) (acc count : Z) : Z * Z * list ascii :=
  match l with
  | c :: r =>
      match digit_of c with
      | Some d => take_digits r (10 * acc + d) (count + 1)
      | None => (acc, count, l)
      end
  | [] => (acc, count, [])
  end.

(** The optional exponent part [[eE][+-]?[0-9]+]. *)
Definition parse_exponent (l : list ascii) : option (Z * list ascii) :=
  match l with
  | c :: r =>
      if (Ascii.eqb c "e" || Ascii.eqb c "E")%bool then
        let '(neg, r1) :=
          match r with
          | s :: r' =>
              if Ascii.eqb s "-" then (true, r')
              else if Ascii.eqb s "+" then (false, r')
              else (false, r)
          | [] => (false, r)
          end in
        let '(v, n, r2) := take_digits r1 0 0 in
        if n =? 0 then None else Some (if neg then - v else v, r2)
      else Some (0, l)
  | [] => Some (0, [])
  end.

(** The optional fraction part [\.[0-9]+] after the integer part [i]: the
    digits read so far as one integer and the number of fraction digits. *)
Definition parse_fraction (i : Z) (l : list ascii)
    : option (Z * Z * list ascii) :=
  match l with
  | c :: r =>
      if Ascii.eqb c "." then
        let '(v, n, r1) := take_digits r i 0 in
        if n =? 0 then None else Some (v, n, r1)
      else Some (i, 0, l)
  | [] => Some (i, 0, [])
  end.

(** A number: an optional minus sign, the integer part (a single 0, or
    digits that do not start with 0), then the fraction and the exponent. *)
Definition parse_number (l : list ascii) : option (json * list ascii) :=
  let '(neg, l1) :=
    match l with
    | c :: r => if Ascii.eqb c "-" then (true, r) else (false, l)
    | [] => (false, l)
    end in
  match l1 with
  | c :: r =>
      match digit_of c with
      | None => None
      | Some d =>
          let '(i, r1) :=
            if d =? 0 then (0, r)
            else let '(v, _, r') := take_digits r d 1 in (v, r') in
          match parse_fraction i r1 with
          | None => None
          | Some (m, nfrac, r2) =>
              match parse_exponent r2 with
              | None => None
              | Some (ex, r3) =>
                  Some (JNum (if neg then - m else m) (ex - nfrac), r3)
              end
          end
      end
  | [] => None
  end.

(** The characters of a string after its opening quote, up to the closing
    one; [acc] holds the characters read so far, last first. *)
Fixpoint parse_string (l : list ascii) (acc : list ascii)
    : parsed (string * list ascii) :=
  match l with
  | [] => SyntaxError
  | c :: r =>
      if Ascii.eqb c "034" then Ok (string_of_list_ascii (rev acc), r)
      else if (nat_of_ascii c <? 32)%nat then SyntaxError
      else if Ascii.eqb c "\" then
        match r with
        | [] => SyntaxError
        | x :: r1 =>
            if Ascii.eqb x "u" then
              match r1 with
              | h1 :: h2 :: h3 :: h4 :: r2 =>
                  match hex_of h1, hex_of h2, hex_of h3, hex_of h4 with
                  | Some a, Some b, Some c', Some d =>
                      let code := ((a * 16 + b) * 16 + c') * 16 + d in
                      if code <? 128 then
                        parse_string r2
                          (ascii_of_nat (Z.to_nat code) :: acc)
                      else Unsupported
                  | _, _, _, _ => SyntaxError
                  end
              | _ => SyntaxError
              end
            else
              let unescaped :=
                if Ascii.eqb x "034" then Some "034"%char
                else if Ascii.eqb x "\" then Some "\"%char
                else if Ascii.eqb x "/" then Some "/"%char
                else if Ascii.eqb x "b" then Some "008"%char
                else if Ascii.eqb x "f" then Some "012"%char
                else if Ascii.eqb x "n" then Some "010"%char
                else if Ascii.eqb x "r" then Some "013"%char
                else if Ascii.eqb x "t" then Some "009"%char
                else None in
              match unescaped with
              | Some u => parse_string r1 (u :: acc)
              | None => SyntaxError
              end
        end
      else parse_string r (c :: acc)
  end.

Definition starts_with (prefix : string) (l : list ascii)
    : option (list ascii) :=
  let p := list_ascii_of_string prefix in
  if String.eqb (string_of_list_ascii (firstn (List.length p) l)) prefix
  then Some (skipn (List.length p) l) else None.

(** A value, the elements of an array after its first bracket, the members
    of an object after its first brace.  [fuel] bounds the nesting; the
    text's length is enough. *)
Fixpoint parse_value (fuel : nat) (l : list ascii)
    : parsed (json * list ascii) :=
  match fuel with
  | O => Unsupported
  | S fuel' =>
      match skip_ws l with
      | [] => SyntaxError
      | c :: r =>
          if Ascii.eqb c "034" then
            match parse_string r [] with
            | Ok (s, r') => Ok (JStr s, r')
            | SyntaxError => SyntaxError
            | Unsupported => Unsupported
            end
          else if Ascii.eqb c "[" then
            match skip_ws r with
            | "]"%char :: r' => Ok (JArr [], r')
            | _ => parse_elements fuel' r []
            end
          else if Ascii.eqb c "{" then
            match skip_ws r with
            | "}"%char :: r' => Ok (JObj [], r')
            | _ => parse_members fuel' r []
            end
          else
            match starts_with "null" (c :: r), starts_with "true" (c :: r),
                  starts_with "false" (c :: r) with
            | Some r', _, _ => Ok (JNull, r')
            | _, Some r', _ => Ok (JBool true, r')
            | _, _, Some r' => Ok (JBool false, r')
            | None, None, None =>
                match parse_number (c :: r) with
                | Some res => Ok res
                | None => SyntaxError
                end
            end
      end
  end
with parse_elements (fuel : nat) (l : list ascii) (acc : list json)
    : parsed (json * list ascii) :=
  match fuel with
  | O => Unsupported
  | S fuel' =>
      match parse_value fuel' l with
      | Ok (v, r) =>
          match skip_ws r with
          | ","%char :: r' => parse_elements fuel' r' (acc ++ [v])
          | "]"%char :: r' => Ok (JArr (acc ++ [v]), r')
          | _ => SyntaxError
          end
      | SyntaxError => SyntaxError
      | Unsupported => Unsupported
      end
  end
with parse_members (fuel : nat) (l : list ascii) (acc : list (string * json))
    : parsed (json * list ascii) :=
  match fuel with
  | O => Unsupported
  | S fuel' =>
      match skip_ws l with
      | c :: r =>
          if Ascii.eqb c "034" then
            match parse_string r [] with
            | Ok (k, r1) =>
                match skip_ws r1 with
                | ":"%char :: r2 =>
                    match parse_value fuel' r2 with
                    | Ok (v, r3) =>
                        match skip_ws r3 with
                        | ","%char :: r4 =>
                            parse_members fuel' r4 (acc ++ [(k, v)])
                        | "}"%char :: r4 => Ok (JObj (acc ++ [(k, v)]), r4)
                        | _ => SyntaxError
                        end
                    | SyntaxError => SyntaxError
                    | Unsupported => Unsupported
                    end
                | _ => SyntaxError
                end
            | SyntaxError => SyntaxError
            | Unsupported => Unsupported
            end
          else SyntaxError
      | [] => SyntaxError
      end
  end.

(** [JSON.parse(text)] *)
Definition JSON_parse (text : string) : parsed json :=
  let l := list_ascii_of_string text in
  match parse_value (2 * List.length l + 2) l with
  | Ok (v, r) =>
      match skip_ws r with
      | [] => Ok v
      | _ :: _ => SyntaxError
      end
  | SyntaxError => SyntaxError
  | Unsupported => Unsupported
  end.

(** *** Printing *)

Definition nl : string := String "010" EmptyString.
Definition dquote : string := String "034" EmptyString.

Definition hex_digit (n : Z) : ascii :=
  ascii_of_nat (Z.to_nat (if n <? 10 then 48 + n else 87 + n)).

(** One character of a string inside its quotes (QuoteJSONString). *)
Definition escape_char (c : ascii) : string :=
  let n := Z.of_nat (nat_of_ascii c) in
  if n =? 8 then "\b"
  else if n =? 9 then "\t"
  else if n =? 10 then "\n"
  else if n =? 12 then "\f"
  else if n =? 13 then "\r"
  else if n =? 34 then String "\" dquote
  else if n =? 92 then "\\"
  else if n <? 32 then
    ("\u00" ++ String (hex_digit (n / 16)) (String (hex_digit (n mod 16))
                                              EmptyString))%string
  else String c EmptyString.

Definition quote (s : string) : string :=
  (dquote ++ String.concat EmptyString (map escape_char (list_ascii_of_string s))
   ++ dquote)%string.

(** [JSON.stringify(v, null, 2)] with the current indentation [indent].  A
    number of integer value prints as its digits; a flow has no other. *)
Fixpoint stringify (indent : string) (v : json) {struct v} : string :=
  let inner := (indent ++ "  ")%string in
  let separator := ("," ++ nl ++ inner)%string in
  match v with
  | JNull => "null"
  | JBool true => "true"
  | JBool false => "false"
  | JNum m e =>
      if 0 <=? e then ToString_int (m * 10 ^ e)
      else (ToString_int m ++ "e" ++ ToString_int e)%string
  | JStr s => quote s
  | JArr [] => "[]"
  | JArr elements =>
      ("[" ++ nl ++ inner
       ++ String.concat separator (map (stringify inner) elements)
       ++ nl ++ indent ++ "]")%string
  | JObj [] => "{}"
  | JObj members =>
      ("{" ++ nl ++ inner
       ++ String.concat separator
            (map (fun kv => let '(k, x) := kv in
                            (quote k ++ ": " ++ stringify inner x)%string)
                 members)
       ++ nl ++ indent ++ "}")%string
  end.

Definition JSON_stringify (v : json) : string := stringify EmptyString v.

(** *** Flows as JSON values *)

(** The own properties of a step and of a flow, in the order in which
    [createNewFlow] and [addStepToFlow] create them; a property that is
    [undefined] is not printed. *)
Definition json_of_step (s : Step.t) : json :=
  JObj ([ ("id", JStr (Step.id s));
          ("name", JStr (Step.name s));
          ("duration", JNum (Step.duration s) 0);
          ("power", JNum (Step.power s) 0);
          ("chemicals", JArr (map JStr (Step.chemicals s)));
          ("temperature", JNum (Step.temperature s) 0);
          ("envImpact", JStr (Step.envImpact s)) ]%string
        ++ match Step.stepIndex s with
           | Some i => [("stepIndex"%string, JNum i 0)]
           | None => []
           end).

Definition json_of_flow (f : Flow.t) : json :=
  JObj ([ ("id", JNum (Flow.id f) 0);
          ("name", JStr (Flow.name f));
          ("description", JStr (Flow.description f)) ]%string
        ++ match Flow.steps f with
           | Some l => [("steps"%string, JArr (map json_of_step l))]
           | None => []
           end
        ++ [ ("createdAt", JStr (Flow.createdAt f));
             ("modifiedAt", JStr (Flow.modifiedAt f)) ]%string).

(** [obj[k]]: the last member of that name, as [JSON.parse] keeps the last
    of several members of one name. *)
Fixpoint get (k : string) (members : list (string * json)) : option json :=
  match members with
  | [] => None
  | (k', v) :: r =>
      match get k r with
      | Some v' => Some v'
      | None => if String.eqb k k' then Some v else None
      end
  end.

(** The integer a number literal denotes, when it denotes one that a
    binary64 number holds exactly (at most 2^53 - 1 in magnitude). *)
Definition int_of_num (m e : Z) : option Z :=
  let v :=
    if 0 <=? e then Some (m * 10 ^ e)
    else if m mod 10 ^ (- e) =? 0 then Some (m / 10 ^ (- e)) else None in
  match v with
  | Some z => if Z.abs z <? 2 ^ 53 then Some z else None
  | None => None
  end.

Definition as_int (v : option json) : option Z :=
  match v with
  | Some (JNum m e) => int_of_num m e
  | _ => None
  end.

Definition as_string (v : option json) : option string :=
  match v with
  | Some (JStr s) => Some s
  | _ => None
  end.

(** [Some l] when every element of [l] is [Some]. *)
Fixpoint all_some {A : Type} (l : list (option A)) : option (list A) :=
  match l with
  | [] => Some []
  | Some a :: r => option_map (cons a) (all_some r)
  | None :: _ => None
  end.

Definition as_strings (v : option json) : option (list string) :=
  match v with
  | Some (JArr l) => all_some (map (fun x => as_string (Some x)) l)
  | _ => None
  end.

(** The step a JSON object is, when its properties have the types of a
    step's; [stepIndex] may be missing. *)
Definition step_of_json (v : json) : option Step.t :=
  match v with
  | JObj ms =>
      match as_string (get "id" ms), as_string (get "name" ms),
            as_int (get "duration" ms), as_int (get "power" ms),
            as_strings (get "chemicals" ms), as_int (get "temperature" ms),
            as_string (get "envImpact" ms) with
      | Some i, Some n, Some d, Some p, Some c, Some t, Some e =>
          match get "stepIndex" ms with
          | None => Some (Step.mk i n d p c t e None)
          | Some x =>
              option_map (fun k => Step.mk i n d p c t e (Some k))
                (as_int (Some x))
          end
      | _, _, _, _, _, _, _ => None
      end
  | _ => None
  end.

Definition steps_of_json (v : option json) : option (option (list Step.t)) :=
  match v with
  | None => Some None
  | Some (JArr l) => option_map Some (all_some (map step_of_json l))
  | Some _ => None
  end.

(** The flow that the parsed object is after [importedFlow.id = Date.now()]
    and [importedFlow.modifiedAt = new Date().toISOString()], when its other
    properties have the types of a flow's: [id] and [modifiedAt] are the
    values assigned, whatever the document had there, the other properties
    are the document's; [steps] may be missing. *)
Definition flow_of_object (ms : list (string * json)) (now : Z) (iso : string)
    : option Flow.t :=
  match as_string (get "name" ms), as_string (get "description" ms),
        steps_of_json (get "steps" ms), as_string (get "createdAt" ms) with
  | Some n, Some d, Some s, Some c => Some (Flow.mk now n d s c iso)
  | _, _, _, _ => None
  end.

(** ** Export and import *)

(** [exportFlow]: the text [dataStr] of the file offered for download, if
    any. *)
Definition exportFlow (st : State) : option string :=
  match currentFlow st with
  | None => None
  | Some cf => Some (JSON_stringify (json_of_flow cf))
  end.

Definition invalid_json_alert : string :=
  "Error importing flow: Invalid JSON file".

(** What a call of [importFlow] does once the file is read: the state
    afterwards and the message of [alert], if it is called. *)
Definition Outcome : Type := State * option string.

(** [importFlow(event)]: [file] is the text of [event.target.files[0]] if
    there is such a file, [now] and [iso] the values of [Date.now()] and
    [new Date().toISOString()] in [reader.onload].  Assigning a property to
    a parsed value that is not an object throws a [TypeError] (the module
    is strict code), which the [catch] turns into the alert, as it does the
    [SyntaxError] of [JSON.parse].  The result is [None] for a document
    whose value is an array or an object without the types of a flow. *)
Definition importFlow (st : State) (now : Z) (iso : string)
    (file : option string) : option Outcome :=
  match file with
  | None => Some (st, None)
  | Some text =>
      match JSON_parse text with
      | SyntaxError => Some (st, Some invalid_json_alert)
      | Unsupported => None
      | Ok (JObj ms) =>
          match flow_of_object ms now iso with
          | Some importedFlow =>
              Some ({| flows := flows st ++ [importedFlow];
                       currentFlow := Some importedFlow;
                       selectedSteps := or_empty (Flow.steps importedFlow) |},
                    None)
          | None => None
          end
      | Ok (JArr _) => None
      | Ok _ => Some (st, Some invalid_json_alert)
      end
  end.

(** ** Definitions used to state the properties *)

(** The number of steps whose [envImpact] is [high] or [very_high]. *)
Fixpoint highCount (sequence : list Step.t) : nat :=
  match sequence with
  | [] => 0
  | s :: r =>
      ((if string_dec (Step.envImpact s) "high" then 1
        else if string_dec (Step.envImpact s) "very_high" then 1
        else 0) + highCount r)%nat
  end.

(** The index of the first occurrence of [a] in [l]; the length of [l] when
    [a] does not occur. *)
Fixpoint first_index (a : string) (l : list string) : nat :=
  match l with
  | [] => 0
  | x :: r => if string_dec a x then 0%nat else S (first_index a r)
  end.

(** The [stepIndex] properties of a sequence of steps. *)
Definition positions (sequence : list Step.t) : list (option Z) :=
  map Step.stepIndex sequence.

(** The positions [0 .. n-1] of a sequence of [n] steps. *)
Definition contiguous (n : nat) : list (option Z) :=
  map (fun i => Some (Z.of_nat i)) (seq 0 n).

(** The sequence without its element at index [i]. *)
Definition without {A : Type} (i : nat) (l : list A) : list A :=
  firstn i l ++ skipn (S i) l.

(** A text with every apostrophe turned into a double quote, to write
    example documents. *)
Definition doc (s : string) : string :=
  string_of_list_ascii
    (map (fun c => if Ascii.eqb c "'" then "034"%char else c)
       (list_ascii_of_string s)).

(** Example states: a new flow, then steps added to it. *)
Definition iso0 : string := "2024-01-01T00:00:00.000Z".
Definition iso1 : string := "2024-01-01T00:00:01.000Z".

Definition state_new : State := createNewFlow initialState 1000 iso0 iso0.

Definition state_three : State :=
  addStepToFlow
    (addStepToFlow (addStepToFlow state_new 1001 iso1 cvd_oxide)
       1002 iso1 pvd_metal)
    1003 iso1 rca_clean.

(** Both steps added while [Date.now()] is 1001. *)
Definition state_same_millisecond : State :=
  addStepToFlow (addStepToFlow state_new 1001 iso1 cvd_oxide)
    1001 iso1 cvd_oxide.

(** A document of a flow without [steps]. *)
Definition document_without_steps : string :=
  doc "{'id': 17, 'name': 'Gate oxide', 'description': 'draft',
        'createdAt': '2023-05-01T10:00:00.000Z',
        'modifiedAt': '2023-05-02T10:00:00.000Z'}".

(** ** The handlers as events *)

(** What the user can do: the buttons New Flow, Save and Import, a click on
    an entry of the library or on the copy button of a step, on the bin of a
    step, and on the [k]-th of the saved flows. *)
Inductive Event : Type :=
  | CreateNewFlow (now : Z) (iso1 iso2 : string)
  | AddStepToFlow (now : Z) (iso : string) (step : Step.t)
  | RemoveStep (iso : string) (stepIndex : Z)
  | SaveFlow (answer : option string) (iso : string)
  | SelectFlow (k : nat)
  | ImportFlow (now : Z) (iso : string) (file : option string).

(** The state after an event; [None] when there is no [k]-th saved flow to
    click on, or when [importFlow] is given a document outside of what is
    modelled. *)
Definition handle (st : State) (ev : Event) : option State :=
  match ev with
  | CreateNewFlow now iso1 iso2 => Some (createNewFlow st now iso1 iso2)
  | AddStepToFlow now iso step => Some (addStepToFlow st now iso step)
  | RemoveStep iso stepIndex => Some (removeStep st iso stepIndex)
  | SaveFlow answer iso => Some (saveFlow st answer iso)
  | SelectFlow k => option_map (selectFlow st) (nth_error (flows st) k)
  | ImportFlow now iso file => option_map fst (importFlow st now iso file)
  end.

Fixpoint handleAll (st : State) (evs : list Event) : option State :=
  match evs with
  | [] => Some st
  | ev :: r =>
      match handle st ev with
      | Some st' => handleAll st' r
      | None => None
      end
  end.

(** The current flow is one of the saved flows and its steps are the
    selected steps; without a current flow nothing is saved or selected. *)
Definition consistent (st : State) : Prop :=
  match currentFlow st with
  | Some cf => In cf (flows st) /\ or_empty (Flow.steps cf) = selectedSteps st
  | None => flows st = [] /\ selectedSteps st = []
  end.

(** The four risk levels in their order. *)
Definition riskRank (r : string) : nat :=
  if String.eqb r "very_high" then 3
  else if String.eqb r "high" then 2
  else if String.eqb r "medium" then 1
  else 0.

(** An example state with two saved flows of one [id]: the flow of
    [state_three], and that flow exported and imported while [Date.now()]
    is 1000 again; the imported flow is the current one. *)
Definition state_two_of_one_id : State :=
  match importFlow state_three 1000 iso0 (exportFlow state_three) with
  | Some (st, _) => st
  | None => initialState
  end.

Definition flow_imported_twice : Flow.t :=
  match currentFlow state_two_of_one_id with
  | Some g => g
  | None => Flow.mk 0 EmptyString EmptyString None EmptyString EmptyString
  end.

(** A series of calls of [addStepToFlow], each with the values it reads
    from the clock and the step it is given. *)
Fixpoint addSteps (st : State) (calls : list (Z * string * Step.t)) : State :=
  match calls with
  | [] => st
  | (now, iso, step) :: r => addSteps (addStepToFlow st now iso step) r
  end.

(** The steps these calls add to a sequence of [n] steps. *)
Fixpoint newSteps (n : nat) (calls : list (Z * string * Step.t))
    : list Step.t :=
  match calls with
  | [] => []
  | (now, _, step) :: r => newStepOf step now n :: newSteps (S n) r
  end.

(** The value of [Date.now()] in a call. *)
Definition clock (call : Z * string * Step.t) : Z := fst (fst call).

(** The value of the decimal digits [d] read after the digits of value
    [acc]. *)
Fixpoint uint_value (d : Decimal.uint) (acc : Z) : Z :=
  match d with
  | Decimal.Nil => acc
  | Decimal.D0 r => uint_value r (10 * acc + 0)
  | Decimal.D1 r => uint_value r (10 * acc + 1)
  | Decimal.D2 r => uint_value r (10 * acc + 2)
  | Decimal.D3 r => uint_value r (10 * acc + 3)
  | Decimal.D4 r => uint_value r (10 * acc + 4)
  | Decimal.D5 r => uint_value r (10 * acc + 5)
  | Decimal.D6 r => uint_value r (10 * acc + 6)
  | Decimal.D7 r => uint_value r (10 * acc + 7)
  | Decimal.D8 r => uint_value r (10 * acc + 8)
  | Decimal.D9 r => uint_value r (10 * acc + 9)
  end.

(** A text that does not go on with a number: it is empty, or starts with
    a character that is no digit, point or exponent mark. *)
Definition ends_number (rest : list ascii) : bool :=
  match rest with
  | [] => true
  | c :: _ =>
      match digit_of c with
      | Some _ => false
      | None =>
          negb (Ascii.eqb c "." || Ascii.eqb c "e" || Ascii.eqb c "E")
      end
  end.

(** The characters a number starts with. *)
Definition starts_number (c : ascii) : bool :=
  Ascii.eqb c "-"
  || match digit_of c with Some _ => true | None => false end.

(** The JSON values whose numbers are integers written without exponent,
    as those of a flow are. *)
Inductive integral : json -> Prop :=
  | integral_null : integral JNull
  | integral_bool (b : bool) : integral (JBool b)
  | integral_num (m : Z) : integral (JNum m 0)
  | integral_str (s : string) : integral (JStr s)
  | integral_arr (l : list json) : Forall integral l -> integral (JArr l)
  | integral_obj (ms : list (string * json)) :
      Forall (fun kv => integral (snd kv)) ms -> integral (JObj ms).

(** A bound on the fuel that reading a printed value takes. *)
Fixpoint size (v : json) : nat :=
  match v with
  | JArr l => S (list_sum (map (fun x => S (size x)) l))
  | JObj ms => S (list_sum (map (fun kv => let '(_, x) := kv in S (size x)) ms))
  | _ => O
  end.

Definition all_ws (l : list ascii) : bool := forallb is_ws l.

(** Reading the printed value [v] gives [v] back, whatever the indentation
    and the text after it. *)
Definition reads_back (v : json) : Prop :=
  forall (indent : string) (rest : list ascii) (fuel : nat),
    all_ws (list_ascii_of_string indent) = true ->
    ends_number rest = true ->
    (size v < fuel)%nat ->
    parse_value fuel (list_ascii_of_string (stringify indent v) ++ rest)
    = Ok (v, rest).

(** The text of a member of an object. *)
Definition member_text (inner : string) (kv : string * json) : string :=
  let '(k, x) := kv in (quote k ++ ": " ++ stringify inner x)%string.

(** A step whose numbers are integers that a binary64 number holds
    exactly, and a flow of such steps. *)
Definition safe_integer (z : Z) : Prop := Z.abs z < 2 ^ 53.

Definition step_safe (s : Step.t) : Prop :=
  safe_integer (Step.duration s) /\ safe_integer (Step.power s)
  /\ safe_integer (Step.temperature s)
  /\ match Step.stepIndex s with
     | Some i => safe_integer i
     | None => True
     end.

Definition flow_safe (f : Flow.t) : Prop :=
  Forall step_safe (or_empty (Flow.steps f)).

(** The flow [f] as [importFlow] stores it: with the new [id] and
    [modifiedAt]. *)
Definition reimported (f : Flow.t) (now : Z) (iso : string) : Flow.t :=
  {| Flow.id := now;
     Flow.name := Flow.name f;
     Flow.description := Flow.description f;
     Flow.steps := Flow.steps f;
     Flow.createdAt := Flow.createdAt f;
     Flow.modifiedAt := iso |}.

(** The total energy on numbers that need not be integers: the reduction
    and the formatting of [calculateEnvironmentalImpact] for steps whose
    [power] and [duration] are the binary64 numbers of the pairs. *)
Definition energyOf (values : list (float * float)) : float :=
  fold_left
    (fun sum v => (sum + fst v * snd v / Z2float 60)%float)
    values 0%float.

Definition totalEnergyOf (values : list (float * float)) : option jsval :=
  if (List.length values =? 0)%nat then Some (JSNumber 0%float)
  else option_map JSString (toFixed1 (energyOf values)).

(** The [power] and [duration] of a step as binary64 numbers. *)
Definition numbers (step : Step.t) : float * float :=
  (Z2float (Step.power step), Z2float (Step.duration step)).

(** ** The import on any document *)

(** [obj[k] = v]: the new member is the last one, which [get] finds. *)
Definition assign (k : string) (v : json) (members : list (string * json))
    : list (string * json) :=
  members ++ [(k, v)].

(** Whether the number of the literal [m * 10^e] is the binary64 zero: it
    is when the value is at most 2^-1075, half of the least positive
    number. *)
Definition number_is_zero (m e : Z) : bool :=
  if 0 <=? e then m =? 0 else Z.abs m * 2 ^ 1075 <=? 10 ^ (- e).

(** Whether a parsed value counts as true, as in [v || []]. *)
Definition truthy (v : json) : bool :=
  match v with
  | JNull => false
  | JBool b => b
  | JNum m e => negb (number_is_zero m e)
  | JStr s => negb (String.eqb s EmptyString)
  | JArr _ => true
  | JObj _ => true
  end.


(** What [reader.onload] does with the text of the file, for any document:
    it shows the alert and makes no [set] call, or it stores an object, that
    is [setFlows([...flows, importedFlow])], [setCurrentFlow(importedFlow)]
    and [setSelectedSteps(selected)] for the parsed object with its [id] and
    [modifiedAt] assigned and [selected = importedFlow.steps || []].  An
    array document (an array that gets properties) is not modelled. *)
Inductive ImportEffect : Type :=
  | ShowsAlert (message : string)
  | StoresObject (importedFlow : list (string * json)) (selected : json)
  | NotModelled.

Definition importEffect (now : Z) (iso : string) (text : string)
    : ImportEffect :=
  match JSON_parse text with
  | SyntaxError => ShowsAlert invalid_json_alert
  | Unsupported => NotModelled
  | Ok (JObj ms) =>
      let importedFlow :=
        assign "modifiedAt" (JStr iso) (assign "id" (JNum now 0) ms) in
      StoresObject importedFlow
        match get "steps" importedFlow with
        | Some v => if truthy v then v else JArr []
        | None => JArr []
        end
  | Ok (JArr _) => NotModelled
  | Ok _ => ShowsAlert invalid_json_alert
  end.

(** [reader.onload] running after other handlers: it closes over the state
    [chosen] of the render in which the file was chosen, and runs when the
    state is [current].  Its three [set] calls give the whole new state from
    [chosen]; when it shows the alert the state stays [current]. *)
Definition importFlowLater (chosen current : State) (now : Z) (iso : string)
    (text : string) : option Outcome :=
  match importFlow chosen now iso (Some text) with
  | Some (st', None) => Some (st', None)
  | Some (_, Some message) => Some (current, Some message)
  | None => None
  end.

(** The state after an import whose file was chosen in [state_new] and
    read after a step was added. *)
Definition state_after_late_import : State :=
  match importFlowLater state_new
          (addStepToFlow state_new 1001 iso1 cvd_oxide) 2000 iso1
          document_without_steps with
  | Some (st, _) => st
  | None => initialState
  end.

(** * Properties *)

(** ** Step sequencer *)

Lemma filter_from_neq_index {A : Type} (k : Z) (l : list A) (start : nat) :
  (k < Z.of_nat start \/ Z.of_nat (start + List.length l) <= k) ->
  filter_from (fun _ index => negb (Z.of_nat index =? k)) start l = l.
Proof.
  revert start.
  induction l as [|x r IH]; intros start H; simpl; [reflexivity|].
  simpl in H.
  destruct (Z.eqb_spec (Z.of_nat start) k) as [E|E]; [lia|].
  simpl. f_equal. apply IH. lia.
Qed.

Lemma filter_from_without {A : Type} (l : list A) (start i : nat) :
  (i < List.length l)%nat ->
  filter_from (fun _ index => negb (Z.of_nat index =? Z.of_nat (start + i)))
    start l = without i l.
Proof.
  revert start i.
  induction l as [|x r IH]; intros start i H; simpl in H; [lia|].
  destruct i as [|i]; simpl.
  - rewrite Nat.add_0_r, Z.eqb_refl. simpl.
    unfold without. simpl.
    apply filter_from_neq_index. lia.
  - destruct (Z.eqb_spec (Z.of_nat start) (Z.of_nat (start + S i))) as [E|E];
      [lia|].
    simpl. unfold without. simpl. f_equal.
    replace (start + S i)%nat with (S start + i)%nat by lia.
    apply IH. lia.
Qed.

(** The steps [removeStep] leaves, for an index within the sequence: the
    others, in their order. *)
Lemma removeStep_selectedSteps (st : State) (iso : string) (i : nat) :
  (i < List.length (selectedSteps st))%nat ->
  selectedSteps (removeStep st iso (Z.of_nat i)) = without i (selectedSteps st).
Proof.
  intros H.
  assert (E : filter_index (fun _ index => negb (Z.of_nat index =? Z.of_nat i))
                (selectedSteps st) = without i (selectedSteps st)).
  { unfold filter_index. apply (filter_from_without _ 0 i H). }
  unfold removeStep. destruct (currentFlow st); simpl; exact E.
Qed.

Lemma without_length {A : Type} (i : nat) (l : list A) :
  (i < List.length l)%nat ->
  List.length (without i l) = (List.length l - 1)%nat.
Proof.
  intros H. unfold without.
  rewrite length_app, length_firstn, length_skipn. lia.
Qed.

(** Every step that [removeStep] keeps is kept as it is, its [stepIndex]
    included. *)
Lemma removeStep_positions (st : State) (iso : string) (i : nat) :
  (i < List.length (selectedSteps st))%nat ->
  positions (selectedSteps (removeStep st iso (Z.of_nat i)))
  = without i (positions (selectedSteps st)).
Proof.
  intros H. rewrite (removeStep_selectedSteps st iso i H).
  unfold positions, without.
  rewrite map_app, firstn_map, skipn_map. reflexivity.
Qed.

(** C1.  [removeStep] does not renumber.  Three steps added to a new flow
    have the positions 0, 1, 2; after [removeStep(0)] the two steps left are
    the second and the third in their order, with the positions 1 and 2 they
    had, not 0 and 1; the next step added gets the position 2 a second
    time. *)
Theorem removeStep_does_not_renumber :
  let st := removeStep state_three iso1 0 in
  positions (selectedSteps state_three) = contiguous 3
  /\ selectedSteps st = without 0 (selectedSteps state_three)
  /\ List.length (selectedSteps st) = 2%nat
  /\ positions (selectedSteps st) = [Some 1; Some 2]
  /\ positions (selectedSteps st) <> contiguous 2
  /\ positions (selectedSteps (addStepToFlow st 1004 iso1 cvd_oxide))
     = [Some 1; Some 2; Some 2].
Proof.
  cbv zeta. repeat split; try reflexivity.
  vm_compute. intros H. discriminate H.
Qed.

(** C7.  For an index outside the sequence [removeStep] does not fail: the
    selected steps stay as they are; without a current flow the whole state
    does, and with one the flow gets these steps and the new [modifiedAt],
    in [currentFlow] and in [flows]. *)
Theorem removeStep_out_of_range (st : State) (iso : string) (i : Z) :
  i < 0 \/ Z.of_nat (List.length (selectedSteps st)) <= i ->
  selectedSteps (removeStep st iso i) = selectedSteps st
  /\ match currentFlow st with
     | None => removeStep st iso i = st
     | Some cf =>
         let updatedFlow := withSteps cf (selectedSteps st) iso in
         currentFlow (removeStep st iso i) = Some updatedFlow
         /\ flows (removeStep st iso i) = replaceFlow cf updatedFlow (flows st)
     end.
Proof.
  intros H.
  assert (E : filter_index (fun _ index => negb (Z.of_nat index =? i))
                (selectedSteps st) = selectedSteps st).
  { unfold filter_index. apply filter_from_neq_index. simpl. lia. }
  destruct st as [fs cur sel]. unfold removeStep. simpl in *.
  destruct cur as [cf|]; simpl; rewrite E; repeat split; reflexivity.
Qed.

Lemma removeStep_out_of_range_witness :
  selectedSteps (removeStep state_three iso1 3) = selectedSteps state_three.
Proof.
  apply (removeStep_out_of_range state_three iso1 3).
  right. vm_compute. discriminate.
Defined.

(** C7, as stated, fails: on the empty sequence [removeStep(0)] returns, and
    the sequence is the empty one again. *)
Lemma removeStep_empty_returns :
  removeStep initialState iso1 0 = initialState
  /\ selectedSteps (removeStep state_new iso1 0) = [].
Proof. split; reflexivity. Qed.

(** C10.  Without a current flow [addStepToFlow] changes nothing. *)
Theorem addStepToFlow_without_current_flow
    (st : State) (now : Z) (iso : string) (step : Step.t) :
  currentFlow st = None ->
  addStepToFlow st now iso step = st.
Proof.
  intros H. unfold addStepToFlow. rewrite H. reflexivity.
Qed.

Lemma addStepToFlow_without_current_flow_witness :
  addStepToFlow initialState 1001 iso1 cvd_oxide = initialState.
Proof.
  apply (addStepToFlow_without_current_flow initialState 1001 iso1 cvd_oxide).
  reflexivity.
Defined.

(** C5.  Two calls of [addStepToFlow] with the same library entry while
    [Date.now()] has the same value give two steps of the same [id]. *)
Theorem addStepToFlow_same_millisecond_same_id :
  map Step.id (selectedSteps state_same_millisecond)
  = ["cvd_oxide_1001"; "cvd_oxide_1001"]%string
  /\ ~ NoDup (map Step.id (selectedSteps state_same_millisecond)).
Proof.
  split; [reflexivity|].
  intros H. inversion H as [|x l Hin Hnd]; subst.
  apply Hin. left. reflexivity.
Qed.

(** ** Impact aggregation: risk level *)

Lemma isHighImpact_highCount (sequence : list Step.t) :
  List.length (filter isHighImpact sequence) = highCount sequence.
Proof.
  induction sequence as [|s r IH]; [reflexivity|].
  simpl. unfold isHighImpact at 1, includes. simpl.
  destruct (string_dec (Step.envImpact s) "high") as [E|E].
  - rewrite E. simpl. rewrite IH. reflexivity.
  - apply String.eqb_neq in E. rewrite E. simpl.
    destruct (string_dec (Step.envImpact s) "very_high") as [E'|E'].
    + rewrite E'. simpl. rewrite IH. reflexivity.
    + apply String.eqb_neq in E'. rewrite E'. simpl. exact IH.
Qed.

(** The risk level as the nested conditional of the code, on [highCount]. *)
Lemma riskLevel_cases (sequence : list Step.t) :
  riskLevel (summarize sequence)
  = if (2 <? highCount sequence)%nat then "very_high"%string
    else if (0 <? highCount sequence)%nat then "high"%string
    else if (5 <? List.length sequence)%nat then "medium"%string
    else "low"%string.
Proof.
  destruct sequence as [|s r]; [reflexivity|].
  unfold summarize, calculateEnvironmentalImpact.
  cbn [selectedSteps List.length Nat.eqb riskLevel].
  rewrite isHighImpact_highCount. reflexivity.
Qed.

(** C2.  The risk level of a sequence with [hc] steps of impact [high] or
    [very_high] among [n] steps: [very_high] if [2 < hc]; else [high] if
    [0 < hc]; else [medium] if [5 < n]; else [low].  So 3 such steps give
    [very_high], 1 gives [high], none among 6 steps gives [medium] and none
    among at most 5 steps gives [low]. *)
Theorem riskLevel_policy (sequence : list Step.t) :
  let hc := highCount sequence in
  let n := List.length sequence in
  let r := riskLevel (summarize sequence) in
  ((2 < hc)%nat -> r = "very_high"%string)
  /\ ((0 < hc <= 2)%nat -> r = "high"%string)
  /\ (hc = 0%nat -> (5 < n)%nat -> r = "medium"%string)
  /\ (hc = 0%nat -> (n <= 5)%nat -> r = "low"%string)
  /\ (hc = 3%nat -> r = "very_high"%string)
  /\ (hc = 1%nat -> r = "high"%string)
  /\ (hc = 0%nat -> n = 6%nat -> r = "medium"%string).
Proof.
  cbv zeta. rewrite riskLevel_cases.
  destruct (Nat.ltb_spec 2 (highCount sequence)) as [H2|H2];
    destruct (Nat.ltb_spec 0 (highCount sequence)) as [H0|H0];
    destruct (Nat.ltb_spec 5 (List.length sequence)) as [H5|H5];
    repeat split; intros; try reflexivity; lia.
Qed.

Lemma riskLevel_policy_witness :
  riskLevel (summarize [ald_hfO2; euv_exposure; wet_etch_metal])
  = "very_high"%string
  /\ riskLevel (summarize [cvd_oxide; ald_hfO2]) = "high"%string
  /\ riskLevel (summarize (repeat pvd_metal 6)) = "medium"%string
  /\ riskLevel (summarize (repeat pvd_metal 5)) = "low"%string.
Proof.
  split; [|split; [|split]].
  - apply (riskLevel_policy [ald_hfO2; euv_exposure; wet_etch_metal]).
    vm_compute. lia.
  - apply (riskLevel_policy [cvd_oxide; ald_hfO2]). vm_compute. lia.
  - apply (riskLevel_policy (repeat pvd_metal 6)).
    + reflexivity.
    + vm_compute. lia.
  - apply (riskLevel_policy (repeat pvd_metal 5)).
    + reflexivity.
    + vm_compute. lia.
Defined.

(** ** Impact aggregation: chemicals *)

Lemma includes_In (arr : list string) (x : string) :
  includes arr x = true <-> In x arr.
Proof.
  unfold includes. rewrite existsb_exists. split.
  - intros [y [Hy E]]. apply String.eqb_eq in E. subst y. exact Hy.
  - intros H. exists x. split; [exact H|apply String.eqb_refl].
Qed.

(** One more element read: it is added at the end unless already there. *)
Lemma Set_spread_snoc (l : list string) (x : string) :
  Set_spread (l ++ [x]) = Set_add (Set_spread l) x.
Proof. unfold Set_spread. rewrite fold_left_app. reflexivity. Qed.

Lemma Set_spread_In (l : list string) (c : string) :
  In c (Set_spread l) <-> In c l.
Proof.
  induction l as [|x l IH] using rev_ind; [reflexivity|].
  rewrite Set_spread_snoc. unfold Set_add.
  destruct (includes (Set_spread l) x) eqn:E.
  - apply includes_In in E. rewrite in_app_iff, IH. simpl.
    split; [tauto|]. intros [H|[H|[]]]; [exact H|].
    subst c. apply IH. exact E.
  - rewrite !in_app_iff, IH. reflexivity.
Qed.

Lemma Set_spread_NoDup (l : list string) : NoDup (Set_spread l).
Proof.
  induction l as [|x l IH] using rev_ind; [constructor|].
  rewrite Set_spread_snoc. unfold Set_add.
  destruct (includes (Set_spread l) x) eqn:E; [exact IH|].
  assert (Hx : ~ In x (Set_spread l)).
  { intros H. apply includes_In in H. congruence. }
  clear E. revert IH Hx.
  generalize (Set_spread l) as s.
  induction s as [|y s IHs]; intros Hnd Hx; simpl.
  - constructor; [intros []|constructor].
  - inversion Hnd as [|? ? Hy Hs]; subst. constructor.
    + rewrite in_app_iff. simpl. intros [H|[H|[]]]; [tauto|].
      apply Hx. left. symmetry. exact H.
    + apply IHs; [exact Hs|]. intros H. apply Hx. right. exact H.
Qed.

Lemma first_index_app_In (a : string) (l m : list string) :
  In a l -> first_index a (l ++ m) = first_index a l.
Proof.
  induction l as [|x l IH]; intros H; [destruct H|].
  simpl. destruct (string_dec a x) as [E|E]; [reflexivity|].
  f_equal. apply IH. destruct H as [H|H]; [congruence|exact H].
Qed.

Lemma first_index_app_new (a : string) (l : list string) :
  ~ In a l -> first_index a (l ++ [a]) = List.length l.
Proof.
  induction l as [|x l IH]; intros H; simpl.
  - destruct (string_dec a a); [reflexivity|congruence].
  - destruct (string_dec a x) as [E|E].
    + exfalso. apply H. left. symmetry. exact E.
    + f_equal. apply IH. intros Hin. apply H. right. exact Hin.
Qed.

Lemma first_index_In (a : string) (l : list string) :
  In a l -> (first_index a l < List.length l)%nat.
Proof.
  induction l as [|x l IH]; intros H; [destruct H|].
  simpl. destruct (string_dec a x) as [E|E]; [lia|].
  destruct H as [H|H]; [congruence|]. specialize (IH H). lia.
Qed.

(** Two elements of the result stand in the order of their first
    occurrences in the array. *)
Lemma Set_spread_order (l : list string) (a b : string) :
  In a (Set_spread l) -> In b (Set_spread l) ->
  ((first_index a (Set_spread l) < first_index b (Set_spread l))%nat
   <-> (first_index a l < first_index b l)%nat).
Proof.
  induction l as [|x l IH] using rev_ind; [intros []|].
  rewrite Set_spread_snoc. unfold Set_add.
  destruct (includes (Set_spread l) x) eqn:E.
  - intros Ha Hb.
    rewrite !first_index_app_In by (apply Set_spread_In; assumption).
    apply IH; assumption.
  - assert (Hx : ~ In x (Set_spread l)).
    { intros H. apply includes_In in H. congruence. }
    assert (Hx' : ~ In x l).
    { intros H. apply Hx. apply Set_spread_In. exact H. }
    rewrite !in_app_iff. simpl.
    intros [Ha|[Ha|[]]] [Hb|[Hb|[]]]; subst.
    + rewrite !first_index_app_In by
        (assumption || (apply Set_spread_In; assumption)).
      apply IH; assumption.
    + rewrite (first_index_app_In a) by assumption.
      rewrite (first_index_app_In a) by (apply Set_spread_In; assumption).
      rewrite !first_index_app_new by assumption.
      pose proof (first_index_In a _ Ha).
      pose proof (first_index_In a l (proj1 (Set_spread_In l a) Ha)).
      lia.
    + rewrite (first_index_app_In b) by assumption.
      rewrite (first_index_app_In b) by (apply Set_spread_In; assumption).
      rewrite !first_index_app_new by assumption.
      pose proof (first_index_In b _ Hb).
      pose proof (first_index_In b l (proj1 (Set_spread_In l b) Hb)).
      lia.
    + lia.
Qed.

Lemma chemicals_summarize (sequence : list Step.t) :
  chemicals (summarize sequence)
  = Set_spread (flat_map Step.chemicals sequence).
Proof. destruct sequence; reflexivity. Qed.

(** C9.  The chemicals of the summary are the names of the steps' chemicals
    lists, each once, in the order of their first occurrences in the
    concatenation of these lists; none for the empty sequence. *)
Theorem chemicals_first_occurrences (sequence : list Step.t) :
  let all := flat_map Step.chemicals sequence in
  let result := chemicals (summarize sequence) in
  NoDup result
  /\ (forall c, In c result <-> In c all)
  /\ (forall a b, In a result -> In b result ->
        ((first_index a result < first_index b result)%nat
         <-> (first_index a all < first_index b all)%nat))
  /\ chemicals (summarize []) = [].
Proof.
  cbv zeta. rewrite chemicals_summarize.
  split; [apply Set_spread_NoDup|].
  split; [intros c; apply Set_spread_In|].
  split; [intros a b; apply Set_spread_order|reflexivity].
Qed.

Lemma chemicals_first_occurrences_witness :
  (first_index "H2O2" (chemicals (summarize [rca_clean; wet_etch_metal]))
   < first_index "H2SO4" (chemicals (summarize [rca_clean; wet_etch_metal])))%nat.
Proof.
  apply (chemicals_first_occurrences [rca_clean; wet_etch_metal]).
  - vm_compute. tauto.
  - vm_compute. tauto.
  - vm_compute. lia.
Defined.

(** ** Impact aggregation: total energy *)

(** [nearest_tenths m e] is the integer nearest to [10 * m * 2^e], the
    larger one on a tie: it is [n] with [n - 1/2 <= 10 * m * 2^e < n + 1/2],
    the inequalities multiplied by [2 * 2^-e] when [e] is negative. *)
Lemma nearest_tenths_spec (m e : Z) :
  0 < m ->
  let n := nearest_tenths m e in
  0 <= n
  /\ (2 * n - 1) * 2 ^ Z.max 0 (- e) <= 20 * m * 2 ^ Z.max 0 e
     < (2 * n + 1) * 2 ^ Z.max 0 (- e).
Proof.
  intros Hm. cbv zeta. unfold nearest_tenths.
  assert (HP : 0 < 2 ^ Z.max 0 e) by (apply Z.pow_pos_nonneg; lia).
  assert (HQ : 0 < 2 ^ Z.max 0 (- e)) by (apply Z.pow_pos_nonneg; lia).
  set (P := 2 ^ Z.max 0 e) in *. set (Q := 2 ^ Z.max 0 (- e)) in *.
  assert (HmP : 0 < m * P) by nia.
  set (a := 20 * m * P + Q).
  pose proof (Z.div_mod a (2 * Q) ltac:(lia)) as Hdm.
  pose proof (Z.mod_pos_bound a (2 * Q) ltac:(lia)) as Hb.
  assert (H0 : 0 <= a / (2 * Q)) by (apply Z.div_pos; unfold a; nia).
  split; [exact H0|].
  unfold a in *. nia.
Qed.

Lemma totalEnergy_nonempty (sequence : list Step.t) :
  sequence <> [] ->
  totalEnergy (summarize sequence)
  = option_map JSString (toFixed1 (energySum sequence)).
Proof.
  intros H. destruct sequence as [|s r]; [congruence|reflexivity].
Qed.

Lemma energyOf_snoc (l : list (float * float)) (p d : float) :
  energyOf (l ++ [(p, d)]) = (energyOf l + p * d / Z2float 60)%float.
Proof. unfold energyOf. rewrite fold_left_app. reflexivity. Qed.

Lemma energySum_energyOf (sequence : list Step.t) :
  energySum sequence = energyOf (map numbers sequence).
Proof.
  unfold energySum, energyOf. generalize 0%float as acc.
  induction sequence as [|s r IH]; intros acc; [reflexivity|].
  simpl. apply IH.
Qed.

Lemma totalEnergy_totalEnergyOf (sequence : list Step.t) :
  totalEnergy (summarize sequence) = totalEnergyOf (map numbers sequence).
Proof.
  destruct sequence as [|s r]; [reflexivity|].
  rewrite totalEnergy_nonempty by discriminate.
  rewrite energySum_energyOf. reflexivity.
Qed.

(** C4.  The total energy of the steps of a summary is that of their
    [power] and [duration] numbers, whatever binary64 numbers these are.
    The sum starts from 0 and takes the steps in their order, each step
    adding [power * duration / 60] in binary64 arithmetic.  For a sequence
    that is not empty the total energy is the string [x.toFixed(1)] of this
    sum [x]: when [x] is [+-m * 2^e], not zero and below 10^21 in
    magnitude, the sign if negative, the digits of [n / 10], a point and
    the digit [n mod 10], where [n] is the integer nearest to
    [10 * m * 2^e], the larger one on a tie; when [x] is zero, [0.0].  For
    the empty sequence the total energy is the number 0. *)
Theorem totalEnergy_toFixed (values : list (float * float)) :
  values <> [] ->
  (forall sequence : list Step.t,
     totalEnergy (summarize sequence) = totalEnergyOf (map numbers sequence))
  /\ energyOf [] = 0%float
  /\ (forall (l : list (float * float)) (p d : float),
        energyOf (l ++ [(p, d)]) = (energyOf l + p * d / Z2float 60)%float)
  /\ (forall (s : bool) (m : positive) (e : Z),
        Prim2SF (energyOf values) = S754_finite s m e ->
        Zpos m * 2 ^ Z.max 0 e < 10 ^ 21 * 2 ^ Z.max 0 (- e) ->
        exists n : Z,
          0 <= n
          /\ (2 * n - 1) * 2 ^ Z.max 0 (- e) <= 20 * Zpos m * 2 ^ Z.max 0 e
             < (2 * n + 1) * 2 ^ Z.max 0 (- e)
          /\ totalEnergyOf values
             = Some (JSString
                       ((if s then "-" else EmptyString)
                        ++ ToString_int (n / 10) ++ "."
                        ++ ToString_int (n mod 10))%string))
  /\ (forall s : bool,
        Prim2SF (energyOf values) = S754_zero s ->
        totalEnergyOf values = Some (JSString "0.0"))
  /\ totalEnergyOf [] = Some (JSNumber 0%float).
Proof.
  intros Hne.
  assert (E : totalEnergyOf values
              = option_map JSString (toFixed1 (energyOf values))).
  { destruct values as [|v r]; [congruence|reflexivity]. }
  split; [exact totalEnergy_totalEnergyOf|].
  split; [reflexivity|].
  split; [exact energyOf_snoc|].
  rewrite E. split; [|split; [|reflexivity]].
  - intros s m e Hx Hlt.
    exists (nearest_tenths (Zpos m) e).
    destruct (nearest_tenths_spec (Zpos m) e ltac:(lia)) as [H0 Hn].
    split; [exact H0|]. split; [exact Hn|].
    unfold toFixed1. rewrite Hx.
    assert (G : ge_1e21 (Zpos m) e = false).
    { unfold ge_1e21. apply Z.leb_gt. exact Hlt. }
    rewrite G. destruct s; reflexivity.
  - intros s Hx. unfold toFixed1. rewrite Hx. reflexivity.
Qed.

(** Three steps CVD Oxide, each 2500 W for 120 min: the sum is 15000. *)
Lemma totalEnergy_toFixed_witness :
  totalEnergy (summarize [cvd_oxide; cvd_oxide; cvd_oxide])
  = Some (JSString "15000.0").
Proof.
  assert (Hne : map numbers [cvd_oxide; cvd_oxide; cvd_oxide] <> [])
    by (intros H; discriminate H).
  destruct (totalEnergy_toFixed
              (map numbers [cvd_oxide; cvd_oxide; cvd_oxide]) Hne)
    as [Hsum [_ [_ [Hfin _]]]].
  rewrite Hsum.
  destruct (Hfin false 8246337208320000%positive (-39))
    as [n [H0 [Hn Hs]]].
  - vm_compute. reflexivity.
  - vm_compute. reflexivity.
  - assert (En : n = 150000).
    { change (2 ^ Z.max 0 (- -39)) with 549755813888 in Hn.
      change (2 ^ Z.max 0 (-39)) with 1 in Hn. lia. }
    rewrite Hs, En. reflexivity.
Defined.

(** C4, as stated, fails: the total energy of the single step CVD Oxide is
    the string [5000.0], not a number. *)
Lemma totalEnergy_is_a_string :
  totalEnergy (summarize [cvd_oxide]) = Some (JSString "5000.0")
  /\ ~ (exists x : float,
          totalEnergy (summarize [cvd_oxide]) = Some (JSNumber x)).
Proof.
  split; [vm_compute; reflexivity|].
  intros [x H]. vm_compute in H. discriminate H.
Qed.

(** The rounding is that of the binary64 sum: 9 W for 1 min is the number
    nearest to 0.15, which is below 0.15, and prints as [0.1]; a third of
    100 Wh prints as [33.3]; the sum runs over all the steps; and numbers
    that are no integers are summed alike. *)
Example totalEnergy_binary_rounding :
  totalEnergy (summarize [template "s" "S" 1 9 [] 25 "low"])
  = Some (JSString "0.1")
  /\ totalEnergy (summarize [rca_clean]) = Some (JSString "33.3")
  /\ totalEnergy (summarize [rca_clean; rca_clean; cvd_oxide; pvd_metal])
     = Some (JSString "9566.7")
  /\ totalEnergyOf [(0.5%float, 0.5%float); (1.5%float, 30%float)]
     = Some (JSString "0.8").
Proof. repeat split; vm_compute; reflexivity. Qed.

(** ** Import and export *)

(** C6.  When the text of the file is not JSON, [importFlow] shows the
    alert for an invalid file and leaves the state (the flows, the current
    flow and the selected steps) as it was. *)
Theorem importFlow_invalid_json
    (st : State) (now : Z) (iso : string) (text : string) :
  JSON_parse text = SyntaxError ->
  importFlow st now iso (Some text) = Some (st, Some invalid_json_alert).
Proof.
  intros H. unfold importFlow. rewrite H. reflexivity.
Qed.

Lemma importFlow_invalid_json_witness :
  importFlow state_three 2000 iso1 (Some (doc "{'name': 'Flow A', 'steps': [}"))
  = Some (state_three, Some invalid_json_alert).
Proof.
  apply (importFlow_invalid_json state_three 2000 iso1
           (doc "{'name': 'Flow A', 'steps': [}")).
  vm_compute. reflexivity.
Defined.


Lemma get_assign (k k' : string) (v : json) (ms : list (string * json)) :
  get k (assign k' v ms) = if String.eqb k k' then Some v else get k ms.
Proof.
  unfold assign. induction ms as [|[a x] r IH]; simpl.
  - reflexivity.
  - rewrite IH. destruct (String.eqb k k'); [reflexivity|].
    destruct (get k r); reflexivity.
Qed.

(** The state change [importFlow] gives is the one of [importEffect], read
    as a flow. *)
Lemma importFlow_importEffect
    (st : State) (now : Z) (iso : string) (text : string) :
  importFlow st now iso (Some text)
  = match importEffect now iso text with
    | ShowsAlert message => Some (st, Some message)
    | StoresObject importedFlow _ =>
        match flow_of_object importedFlow now iso with
        | Some f =>
            Some ({| flows := flows st ++ [f];
                     currentFlow := Some f;
                     selectedSteps := or_empty (Flow.steps f) |}, None)
        | None => None
        end
    | NotModelled => None
    end.
Proof.
  unfold importFlow, importEffect.
  destruct (JSON_parse text) as [v| |]; try reflexivity.
  destruct v as [|b|m e|s|l|ms]; try reflexivity.
  assert (E : flow_of_object
                (assign "modifiedAt" (JStr iso) (assign "id" (JNum now 0) ms))
                now iso
              = flow_of_object ms now iso).
  { unfold flow_of_object. rewrite !get_assign. reflexivity. }
  rewrite E. reflexivity.
Qed.




(** C3.  A flow created while [Date.now()] is 1000, exported, and imported
    while [Date.now()] is 1000 again (the same millisecond, or a clock set
    back) comes back with its name, description, steps and creation time,
    but with the same [id] 1000, so that the store holds two flows of one
    [id], and with a [modifiedAt] that is the earlier import time. *)
Theorem import_of_export_same_clock :
  exists (f g : Flow.t) (st' : State),
    currentFlow state_three = Some f
    /\ importFlow state_three 1000 iso0 (exportFlow state_three)
       = Some (st', None)
    /\ currentFlow st' = Some g
    /\ Flow.name g = Flow.name f
    /\ Flow.description g = Flow.description f
    /\ Flow.steps g = Flow.steps f
    /\ Flow.createdAt g = Flow.createdAt f
    /\ Flow.id g = Flow.id f
    /\ String.ltb (Flow.modifiedAt g) (Flow.modifiedAt f) = true
    /\ map Flow.id (flows st') = [1000; 1000].
Proof.
  eexists. eexists. eexists.
  split; [reflexivity|].
  split; [vm_compute; reflexivity|].
  repeat split; reflexivity.
Qed.

(** With a later clock the same flow comes back under a new [id]. *)
Example import_of_export_later_clock :
  exists (f g : Flow.t) (st' : State),
    currentFlow state_three = Some f
    /\ importFlow state_three 2000 "2024-01-01T00:00:02.000Z"
         (exportFlow state_three)
       = Some (st', None)
    /\ currentFlow st' = Some g
    /\ selectedSteps st' = selectedSteps state_three
    /\ g = {| Flow.id := 2000;
              Flow.name := Flow.name f;
              Flow.description := Flow.description f;
              Flow.steps := Flow.steps f;
              Flow.createdAt := Flow.createdAt f;
              Flow.modifiedAt := "2024-01-01T00:00:02.000Z" |}.
Proof.
  eexists. eexists. eexists.
  split; [reflexivity|].
  split; [vm_compute; reflexivity|].
  repeat split; reflexivity.
Qed.

(** * Further properties *)

(** ** The saved flows and the current flow *)

Lemma replaceFlow_In (cf updatedFlow : Flow.t) (fs : list Flow.t) :
  In cf fs -> In updatedFlow (replaceFlow cf updatedFlow fs).
Proof.
  intros H. unfold replaceFlow. apply in_map_iff.
  exists cf. split; [|exact H]. rewrite Z.eqb_refl. reflexivity.
Qed.

Lemma replaceFlow_ids (cf updatedFlow : Flow.t) (fs : list Flow.t) :
  Flow.id updatedFlow = Flow.id cf ->
  map Flow.id (replaceFlow cf updatedFlow fs) = map Flow.id fs.
Proof.
  intros H. unfold replaceFlow. rewrite map_map. apply map_ext.
  intros f. destruct (Z.eqb_spec (Flow.id f) (Flow.id cf)) as [E|E];
    [rewrite H; symmetry; exact E|reflexivity].
Qed.

Lemma handle_consistent (st st' : State) (ev : Event) :
  consistent st -> handle st ev = Some st' -> consistent st'.
Proof.
  unfold consistent. intros Hc Hh.
  destruct ev as [now i1 i2|now iso step|iso k|answer iso|k|now iso file];
    simpl in Hh.
  - injection Hh as <-. simpl. split; [|reflexivity].
    apply in_or_app. right. left. reflexivity.
  - injection Hh as <-. unfold addStepToFlow.
    destruct (currentFlow st) as [cf|] eqn:E; [|rewrite E; exact Hc].
    simpl. split; [|reflexivity]. apply replaceFlow_In. apply Hc.
  - injection Hh as <-. unfold removeStep.
    destruct (currentFlow st) as [cf|] eqn:E; simpl.
    + split; [|reflexivity]. apply replaceFlow_In. apply Hc.
    + destruct Hc as [Hf Hs]. rewrite Hs. split; [exact Hf|reflexivity].
  - injection Hh as <-. unfold saveFlow.
    destruct (currentFlow st) as [cf|] eqn:E; [|rewrite E; exact Hc].
    destruct answer as [[|c a]|]; try (rewrite E; exact Hc).
    simpl. split; [|apply Hc]. apply replaceFlow_In. apply Hc.
  - destruct (nth_error (flows st) k) as [f|] eqn:E; [|discriminate Hh].
    injection Hh as <-. simpl. split; [|reflexivity].
    apply nth_error_In in E. exact E.
  - destruct (importFlow st now iso file) as [[st1 a]|] eqn:E;
      [|discriminate Hh].
    injection Hh as <-. simpl. unfold importFlow in E.
    destruct file as [text|]; [|injection E as <- _; exact Hc].
    destruct (JSON_parse text) as [v| |]; try discriminate E;
      [|injection E as <- _; exact Hc].
    destruct v as [|b|m e|s|l|ms]; try discriminate E;
      try (injection E as <- _; exact Hc).
    destruct (flow_of_object ms now iso) as [f|]; [|discriminate E].
    injection E as <- _. simpl. split; [|reflexivity].
    apply in_or_app. right. left. reflexivity.
Qed.

(** X1.  Whatever the user does from the start, the current flow is one of
    the saved flows, and its steps are the selected steps; as long as there
    is no current flow, no flow is saved and no step is selected. *)
Theorem reachable_consistent (evs : list Event) (st : State) :
  handleAll initialState evs = Some st -> consistent st.
Proof.
  assert (G : forall st0, consistent st0 ->
                handleAll st0 evs = Some st -> consistent st).
  { induction evs as [|ev r IH]; intros st0 H0 H; simpl in H.
    - injection H as <-. exact H0.
    - destruct (handle st0 ev) as [st1|] eqn:E; [|discriminate H].
      apply (IH st1); [|exact H].
      apply (handle_consistent st0 st1 ev H0 E). }
  apply G. split; reflexivity.
Qed.

Lemma reachable_consistent_witness : consistent state_three.
Proof.
  apply (reachable_consistent
           [CreateNewFlow 1000 iso0 iso0; AddStepToFlow 1001 iso1 cvd_oxide;
            AddStepToFlow 1002 iso1 pvd_metal;
            AddStepToFlow 1003 iso1 rca_clean]).
  reflexivity.
Defined.

(** X2.  Adding a step, removing a step and saving never add, drop or
    reorder saved flows, nor change the [id] of one. *)
Theorem edits_keep_flow_ids
    (st : State) (now : Z) (iso : string) (step : Step.t) (k : Z)
    (answer : option string) :
  map Flow.id (flows (addStepToFlow st now iso step)) = map Flow.id (flows st)
  /\ map Flow.id (flows (removeStep st iso k)) = map Flow.id (flows st)
  /\ map Flow.id (flows (saveFlow st answer iso)) = map Flow.id (flows st).
Proof.
  unfold addStepToFlow, removeStep, saveFlow.
  destruct (currentFlow st) as [cf|]; [|repeat split; reflexivity].
  split; [|split].
  - simpl. apply replaceFlow_ids. reflexivity.
  - simpl. apply replaceFlow_ids. reflexivity.
  - destruct answer as [[|c a]|]; try reflexivity.
    simpl. apply replaceFlow_ids. reflexivity.
Qed.

Lemma replaceFlow_other (cf u : Flow.t) (fs : list Flow.t) :
  ~ In (Flow.id cf) (map Flow.id fs) -> replaceFlow cf u fs = fs.
Proof.
  induction fs as [|f r IH]; intros H; [reflexivity|].
  simpl in *. destruct (Z.eqb_spec (Flow.id f) (Flow.id cf)) as [E|E].
  - exfalso. apply H. left. exact E.
  - f_equal. apply IH. intros Hin. apply H. right. exact Hin.
Qed.

Lemma replaceFlow_unique (cf u : Flow.t) (before after : list Flow.t) :
  NoDup (map Flow.id (before ++ cf :: after)) ->
  replaceFlow cf u (before ++ cf :: after) = before ++ u :: after.
Proof.
  intros H. rewrite map_app in H. simpl in H.
  pose proof (NoDup_remove_2 _ _ _ H) as Hn.
  unfold replaceFlow. rewrite map_app. simpl. rewrite Z.eqb_refl.
  fold (replaceFlow cf u before). fold (replaceFlow cf u after).
  rewrite !replaceFlow_other; [reflexivity| |];
    intros Hin; apply Hn; apply in_or_app; [right|left]; exact Hin.
Qed.

(** X3.  When the saved flows have pairwise distinct ids, adding a step
    changes the entry of the current flow only: the flows before it and
    after it in the list stay as they are. *)
Theorem addStepToFlow_changes_current_entry_only
    (st : State) (now : Z) (iso : string) (step : Step.t) (cf : Flow.t)
    (before after : list Flow.t) :
  currentFlow st = Some cf ->
  flows st = before ++ cf :: after ->
  NoDup (map Flow.id (flows st)) ->
  flows (addStepToFlow st now iso step)
  = before
    ++ withSteps cf
         (selectedSteps st
          ++ [newStepOf step now (List.length (selectedSteps st))]) iso
    :: after.
Proof.
  intros Hc Hf Hn. unfold addStepToFlow. rewrite Hc. simpl.
  rewrite Hf in *. apply replaceFlow_unique. exact Hn.
Qed.

Lemma addStepToFlow_changes_current_entry_only_witness :
  flows (addStepToFlow state_new 1001 iso1 cvd_oxide)
  = []
    ++ withSteps (Flow.mk 1000 "Process Flow 1" EmptyString (Some []) iso0 iso0)
         (selectedSteps state_new
          ++ [newStepOf cvd_oxide 1001 (List.length (selectedSteps state_new))])
         iso1
    :: [].
Proof.
  apply (addStepToFlow_changes_current_entry_only state_new 1001 iso1 cvd_oxide
           (Flow.mk 1000 "Process Flow 1" EmptyString (Some []) iso0 iso0)
           [] []).
  - reflexivity.
  - reflexivity.
  - vm_compute. constructor; [intros H; destruct H|constructor].
Defined.

(** X4.  Every saved flow that has the [id] of the current flow is
    overwritten when a step is added: after the call all saved flows of
    that [id] are the updated current flow. *)
Theorem addStepToFlow_overwrites_same_id
    (st : State) (now : Z) (iso : string) (step : Step.t) (cf f : Flow.t) :
  currentFlow st = Some cf ->
  In f (flows (addStepToFlow st now iso step)) ->
  Flow.id f = Flow.id cf ->
  Some f = currentFlow (addStepToFlow st now iso step).
Proof.
  intros Hc Hin Hid. unfold addStepToFlow in *. rewrite Hc in *.
  simpl in *. unfold replaceFlow in Hin. apply in_map_iff in Hin.
  destruct Hin as [g [Hg _]].
  destruct (Z.eqb_spec (Flow.id g) (Flow.id cf)) as [E|E].
  - subst f. reflexivity.
  - subst g. contradiction.
Qed.

Lemma addStepToFlow_overwrites_same_id_witness :
  Some (hd flow_imported_twice
          (flows (addStepToFlow state_two_of_one_id 1005 iso1 rca_clean)))
  = currentFlow (addStepToFlow state_two_of_one_id 1005 iso1 rca_clean).
Proof.
  apply (addStepToFlow_overwrites_same_id state_two_of_one_id 1005 iso1
           rca_clean flow_imported_twice).
  - vm_compute. reflexivity.
  - vm_compute. left. reflexivity.
  - vm_compute. reflexivity.
Defined.

(** What [importFlow] can do: nothing, or add one flow at the end, with the
    new [id] and [modifiedAt], as the current flow. *)
Lemma importFlow_cases
    (st st' : State) (now : Z) (iso : string) (file : option string)
    (a : option string) :
  importFlow st now iso file = Some (st', a) ->
  st' = st
  \/ (exists f : Flow.t,
        Flow.id f = now /\ Flow.modifiedAt f = iso /\ a = None
        /\ st' = {| flows := flows st ++ [f];
                    currentFlow := Some f;
                    selectedSteps := or_empty (Flow.steps f) |}).
Proof.
  unfold importFlow. intros E.
  destruct file as [text|]; [|injection E as <- _; left; reflexivity].
  destruct (JSON_parse text) as [v| |]; try discriminate E;
    [|injection E as <- _; left; reflexivity].
  destruct v as [|b|m e|s|l|ms]; try discriminate E;
    try (injection E as <- _; left; reflexivity).
  unfold flow_of_object in E.
  destruct (as_string (get "name" ms)) as [n|]; [|discriminate E].
  destruct (as_string (get "description" ms)) as [d|]; [|discriminate E].
  destruct (steps_of_json (get "steps" ms)) as [ss|]; [|discriminate E].
  destruct (as_string (get "createdAt" ms)) as [c|]; [|discriminate E].
  injection E as <- <-. right.
  exists (Flow.mk now n d ss c iso). repeat split; reflexivity.
Qed.

Lemma NoDup_snoc (ids : list Z) (now : Z) :
  NoDup ids -> ~ In now ids -> NoDup (ids ++ [now]).
Proof.
  intros Hn Hi. induction ids as [|x r IH]; simpl.
  - constructor; [intros []|constructor].
  - inversion Hn as [|? ? Hx Hr]; subst. constructor.
    + rewrite in_app_iff. simpl. intros [H|[H|[]]]; [tauto|].
      apply Hi. left. symmetry. exact H.
    + apply IH; [exact Hr|]. intros H. apply Hi. right. exact H.
Qed.

(** X5.  When the saved flows have pairwise distinct ids and [Date.now()]
    returns a value that is the [id] of none of them, they have pairwise
    distinct ids after [createNewFlow] and after [importFlow] too. *)
Theorem fresh_clock_keeps_flow_ids_distinct
    (st : State) (now : Z) (iso1 iso2 : string) (file : option string) :
  NoDup (map Flow.id (flows st)) ->
  ~ In now (map Flow.id (flows st)) ->
  NoDup (map Flow.id (flows (createNewFlow st now iso1 iso2)))
  /\ (forall st' a,
        importFlow st now iso1 file = Some (st', a) ->
        NoDup (map Flow.id (flows st'))).
Proof.
  intros Hn Hi. split.
  - simpl. rewrite map_app. simpl. apply NoDup_snoc; assumption.
  - intros st' a E. apply importFlow_cases in E.
    destruct E as [->|[f [Hid [_ [_ ->]]]]]; [exact Hn|].
    simpl. rewrite map_app. simpl. rewrite Hid.
    apply NoDup_snoc; assumption.
Qed.

Lemma fresh_clock_keeps_flow_ids_distinct_witness :
  NoDup (map Flow.id (flows (createNewFlow state_three 2000 iso1 iso1))).
Proof.
  apply (fresh_clock_keeps_flow_ids_distinct state_three 2000 iso1 iso1 None).
  - vm_compute. constructor; [intros H; destruct H|constructor].
  - vm_compute. intros [H|H]; [discriminate H|destruct H].
Defined.

(** X6.  The flows that [reader.onload] writes are those of the render in
    which the file was chosen, followed by the imported flow, which it makes
    current with its steps selected: it keeps every saved flow when the
    flows are still those of that render, and undoes what other handlers
    did to them in between.  When it shows the alert, the state stays as it
    is at that time. *)
Theorem importFlow_keeps_saved_flows
    (chosen current st' : State) (now : Z) (iso : string) (text : string)
    (a : option string) :
  importFlowLater chosen current now iso text = Some (st', a) ->
  (a <> None -> st' = current)
  /\ (a = None ->
      exists f : Flow.t,
        flows st' = flows chosen ++ [f]
        /\ currentFlow st' = Some f
        /\ selectedSteps st' = or_empty (Flow.steps f)
        /\ Flow.id f = now)
  /\ (flows current = flows chosen ->
      exists added : list Flow.t,
        flows st' = flows current ++ added /\ (List.length added <= 1)%nat).
Proof.
  unfold importFlowLater. intros E.
  destruct (importFlow chosen now iso (Some text)) as [[st1 a1]|] eqn:I;
    [|discriminate E].
  pose proof I as C. apply importFlow_cases in C.
  destruct a1 as [message|].
  - injection E as <- <-.
    split; [reflexivity|]. split; [discriminate|].
    intros _. exists []. rewrite app_nil_r. split; [reflexivity|simpl; lia].
  - injection E as <- <-.
    assert (F : exists f : Flow.t,
              flows st1 = flows chosen ++ [f]
              /\ currentFlow st1 = Some f
              /\ selectedSteps st1 = or_empty (Flow.steps f)
              /\ Flow.id f = now).
    { destruct C as [->|[f [Hid [_ [_ ->]]]]].
      - exfalso. unfold importFlow in I.
        destruct (JSON_parse text) as [v| |]; try discriminate I.
        destruct v as [|b|m e|s|l|ms]; try discriminate I.
        destruct (flow_of_object ms now iso) as [f|]; [|discriminate I].
        injection I as I. apply (f_equal flows) in I. simpl in I.
        apply (f_equal (@List.length Flow.t)) in I.
        rewrite length_app in I. simpl in I. lia.
      - exists f. repeat split; try reflexivity. exact Hid. }
    split; [intros H; congruence|]. split; [intros _; exact F|].
    intros Hsame. destruct F as [f [Hf _]]. exists [f].
    rewrite Hf, Hsame. split; [reflexivity|simpl; lia].
Qed.

(** The file is chosen when the new flow has no steps; a step is added
    before the file is read; the import then writes the flow without the
    step again. *)
Lemma importFlow_keeps_saved_flows_witness :
  exists f : Flow.t,
    flows state_after_late_import = flows state_new ++ [f]
    /\ currentFlow state_after_late_import = Some f
    /\ selectedSteps state_after_late_import = or_empty (Flow.steps f)
    /\ Flow.id f = 2000.
Proof.
  apply (importFlow_keeps_saved_flows state_new
           (addStepToFlow state_new 1001 iso1 cvd_oxide)
           state_after_late_import 2000 iso1 document_without_steps None).
  - vm_compute. reflexivity.
  - reflexivity.
Defined.

(** ** Step ids *)

Local Abbreviation chars := list_ascii_of_string.

Lemma chars_app (a b : string) : chars (a ++ b) = chars a ++ chars b.
Proof.
  induction a as [|c a IH]; [reflexivity|]. simpl. rewrite IH. reflexivity.
Qed.

Lemma chars_inj (a b : string) : chars a = chars b -> a = b.
Proof.
  intros H. rewrite <- (string_of_list_ascii_of_string a).
  rewrite <- (string_of_list_ascii_of_string b). rewrite H. reflexivity.
Qed.

Lemma to_int_proper (z : Z) :
  Z.to_int z <> Decimal.Pos Decimal.Nil /\ Z.to_int z <> Decimal.Neg Decimal.Nil.
Proof.
  destruct z as [|p|p]; simpl; split; try discriminate;
    intros H; injection H as H; exact (DecimalPos.Unsigned.to_uint_nonnil p H).
Qed.

Lemma ToString_int_inj (a b : Z) : ToString_int a = ToString_int b -> a = b.
Proof.
  unfold ToString_int. intros H.
  apply DecimalZ.to_int_inj.
  destruct (to_int_proper a) as [Ha1 Ha2].
  destruct (to_int_proper b) as [Hb1 Hb2].
  pose proof (NilZero.isi (Z.to_int a) Ha1 Ha2) as Ea.
  pose proof (NilZero.isi (Z.to_int b) Hb1 Hb2) as Eb.
  rewrite H in Ea. rewrite Ea in Eb. injection Eb as Eb. exact Eb.
Qed.

Lemma uint_chars_digits (d : Decimal.uint) (c : ascii) :
  In c (chars (NilEmpty.string_of_uint d)) -> digit_of c <> None.
Proof.
  induction d as [|d IH|d IH|d IH|d IH|d IH|d IH|d IH|d IH|d IH|d IH];
    simpl; intros H; try (destruct H as [<-|H]; [discriminate|exact (IH H)]).
  destruct H.
Qed.

(** The digits of an integer have no underscore among them. *)
Lemma ToString_int_no_underscore (z : Z) :
  ~ In "_"%char (chars (ToString_int z)).
Proof.
  assert (U : forall d, ~ In "_"%char (chars (NilZero.string_of_uint d))).
  { intros d H. destruct d; simpl in H;
      try (destruct H as [H|H]; [discriminate H|]);
      try (apply uint_chars_digits in H; apply H; reflexivity);
      destruct H. }
  unfold ToString_int. destruct (Z.to_int z) as [d|d]; simpl.
  - apply U.
  - intros [H|H]; [discriminate H|exact (U d H)].
Qed.

Lemma split_at_last (u : ascii) (l1 l2 d1 d2 : list ascii) :
  ~ In u d1 -> ~ In u d2 ->
  l1 ++ u :: d1 = l2 ++ u :: d2 -> l1 = l2 /\ d1 = d2.
Proof.
  intros H1 H2. revert l2.
  induction l1 as [|x l1 IH]; intros [|y l2] E; simpl in E.
  - injection E as E. split; [reflexivity|exact E].
  - injection E as Ex E. exfalso. apply H1. rewrite E.
    apply in_or_app. right. left. reflexivity.
  - injection E as Ex E. exfalso. apply H2. rewrite <- E.
    apply in_or_app. right. left. reflexivity.
  - injection E as Ex E. destruct (IH l2 E) as [-> ->].
    subst y. split; reflexivity.
Qed.

Lemma newStepOf_id_inj (s1 s2 : Step.t) (t1 t2 : Z) (n1 n2 : nat) :
  Step.id (newStepOf s1 t1 n1) = Step.id (newStepOf s2 t2 n2) ->
  Step.id s1 = Step.id s2 /\ t1 = t2.
Proof.
  simpl. intros H. apply (f_equal chars) in H.
  rewrite !chars_app in H. simpl in H.
  apply split_at_last in H; try apply ToString_int_no_underscore.
  destruct H as [Ha Hb]. split; [apply chars_inj; exact Ha|].
  apply ToString_int_inj. apply chars_inj. exact Hb.
Qed.

(** X7.  Two steps that [addStepToFlow] makes have the same [id] only if
    they were made from steps of the same [id] while [Date.now()] had the
    same value. *)
Theorem newStep_ids_equal_iff (s1 s2 : Step.t) (t1 t2 : Z) (n1 n2 : nat) :
  Step.id (newStepOf s1 t1 n1) = Step.id (newStepOf s2 t2 n2)
  <-> Step.id s1 = Step.id s2 /\ t1 = t2.
Proof.
  split.
  - apply newStepOf_id_inj.
  - intros [E ->]. simpl. rewrite E. reflexivity.
Qed.

Lemma addSteps_selectedSteps (calls : list (Z * string * Step.t)) (st : State) :
  currentFlow st <> None ->
  selectedSteps (addSteps st calls)
  = selectedSteps st ++ newSteps (List.length (selectedSteps st)) calls.
Proof.
  revert st. induction calls as [|[[now iso] step] r IH]; intros st H; simpl.
  - rewrite app_nil_r. reflexivity.
  - destruct (currentFlow st) as [cf|] eqn:E; [|congruence].
    rewrite IH.
    + unfold addStepToFlow. rewrite E. simpl.
      rewrite length_app, <- app_assoc. simpl.
      rewrite Nat.add_1_r. reflexivity.
    + unfold addStepToFlow. rewrite E. simpl. discriminate.
Qed.

Lemma newSteps_length (calls : list (Z * string * Step.t)) (n : nat) :
  List.length (newSteps n calls) = List.length calls.
Proof.
  revert n. induction calls as [|[[now iso] step] r IH]; intros n; simpl;
    [reflexivity|]. rewrite IH. reflexivity.
Qed.

Lemma newSteps_positions (calls : list (Z * string * Step.t)) (n : nat) :
  positions (newSteps n calls)
  = map (fun i => Some (Z.of_nat i)) (seq n (List.length calls)).
Proof.
  revert n. induction calls as [|[[now iso] step] r IH]; intros n; simpl;
    [reflexivity|]. f_equal. apply IH.
Qed.

Lemma newSteps_id_clock (calls : list (Z * string * Step.t)) (n k : nat)
    (s : Step.t) (t : Z) :
  In (Step.id (newStepOf s t k)) (map Step.id (newSteps n calls)) ->
  In t (map clock calls).
Proof.
  revert n. induction calls as [|[[now iso] step] r IH]; intros n H;
    [destruct H|].
  cbn [newSteps map In] in H. cbn [map In]. destruct H as [H|H].
  - left. apply newStepOf_id_inj in H. unfold clock. simpl. apply H.
  - right. apply (IH (S n)). exact H.
Qed.

Lemma newSteps_ids_NoDup (calls : list (Z * string * Step.t)) (n : nat) :
  NoDup (map clock calls) -> NoDup (map Step.id (newSteps n calls)).
Proof.
  revert n. induction calls as [|[[now iso] step] r IH]; intros n H;
    [constructor|].
  cbn [newSteps map]. cbn [map] in H. inversion H as [|? ? Hn Hr]; subst.
  constructor; [|apply IH; exact Hr].
  intros Hin. apply Hn. unfold clock at 1. simpl.
  apply (newSteps_id_clock r (S n) n step now). exact Hin.
Qed.

(** X8.  Steps added to a current flow without steps, in calls that read
    pairwise distinct values of [Date.now()], have pairwise distinct ids;
    there are as many as calls, at the positions 0, 1, 2 and so on. *)
Theorem addSteps_distinct_clocks
    (st : State) (calls : list (Z * string * Step.t)) :
  currentFlow st <> None ->
  selectedSteps st = [] ->
  NoDup (map clock calls) ->
  List.length (selectedSteps (addSteps st calls)) = List.length calls
  /\ positions (selectedSteps (addSteps st calls))
     = contiguous (List.length calls)
  /\ NoDup (map Step.id (selectedSteps (addSteps st calls))).
Proof.
  intros Hc He Hn. rewrite (addSteps_selectedSteps calls st Hc), He. simpl.
  split; [apply newSteps_length|].
  split; [apply newSteps_positions|].
  apply newSteps_ids_NoDup. exact Hn.
Qed.

Lemma addSteps_distinct_clocks_witness :
  NoDup (map Step.id
           (selectedSteps
              (addSteps state_new
                 [(1001, iso1, cvd_oxide); (1002, iso1, cvd_oxide)]))).
Proof.
  apply (addSteps_distinct_clocks state_new
           [(1001, iso1, cvd_oxide); (1002, iso1, cvd_oxide)]).
  - vm_compute. discriminate.
  - reflexivity.
  - vm_compute. constructor.
    + intros [H|H]; [discriminate H|destruct H].
    + constructor; [intros H; destruct H|constructor].
Defined.

(** ** Removing a step *)

Lemma nth_error_without {A : Type} (l : list A) (i j : nat) :
  nth_error (without i l) j
  = if (j <? i)%nat then nth_error l j else nth_error l (S j).
Proof.
  unfold without. revert i j.
  induction l as [|x l IH]; intros i j.
  - rewrite firstn_nil, skipn_nil. simpl.
    destruct (j <? i)%nat; destruct j; reflexivity.
  - destruct i as [|i]; [reflexivity|].
    destruct j as [|j]; [reflexivity|].
    change (nth_error (firstn i l ++ skipn (S i) l) j
            = if (j <? i)%nat then nth_error l j else nth_error l (S j)).
    apply IH.
Qed.

(** X9.  For an index within the selected steps, [removeStep] leaves one
    step less: the steps before the index stay at their indices, those
    after it move down by one, none is changed; the current flow, if any,
    gets these steps. *)
Theorem removeStep_in_range (st : State) (iso : string) (i : nat) :
  (i < List.length (selectedSteps st))%nat ->
  let st' := removeStep st iso (Z.of_nat i) in
  S (List.length (selectedSteps st')) = List.length (selectedSteps st)
  /\ (forall j, (j < i)%nat ->
        nth_error (selectedSteps st') j = nth_error (selectedSteps st) j)
  /\ (forall j, (i <= j)%nat ->
        nth_error (selectedSteps st') j = nth_error (selectedSteps st) (S j))
  /\ (forall cf, currentFlow st = Some cf ->
        currentFlow st' = Some (withSteps cf (selectedSteps st') iso)).
Proof.
  intros H. cbv zeta.
  rewrite (removeStep_selectedSteps st iso i H).
  split; [rewrite (without_length i _ H); lia|].
  split; [|split].
  - intros j Hj. rewrite nth_error_without.
    destruct (Nat.ltb_spec j i); [reflexivity|lia].
  - intros j Hj. rewrite nth_error_without.
    destruct (Nat.ltb_spec j i); [lia|reflexivity].
  - intros cf Hc. unfold removeStep. rewrite Hc. simpl.
    pose proof (filter_from_without (selectedSteps st) 0 i H) as E.
    simpl in E. unfold filter_index. rewrite E. reflexivity.
Qed.

Lemma removeStep_in_range_witness :
  S (List.length (selectedSteps (removeStep state_three iso1 (Z.of_nat 1))))
  = List.length (selectedSteps state_three).
Proof.
  apply (removeStep_in_range state_three iso1 1).
  vm_compute. lia.
Defined.

(** ** More on the impact *)

Lemma highCount_app (a b : list Step.t) :
  highCount (a ++ b) = (highCount a + highCount b)%nat.
Proof.
  induction a as [|s r IH]; [reflexivity|]. simpl. rewrite IH. lia.
Qed.

(** X10.  A sequence with one step more, anywhere, has a risk level that
    is at least as high; so adding a step never lowers the risk level and
    removing one never raises it. *)
Theorem riskLevel_monotone (before after : list Step.t) (s : Step.t) :
  (riskRank (riskLevel (summarize (before ++ after)))
   <= riskRank (riskLevel (summarize (before ++ s :: after))))%nat.
Proof.
  rewrite !riskLevel_cases, !highCount_app, !length_app. simpl.
  set (h := if string_dec (Step.envImpact s) "high" then 1%nat
            else if string_dec (Step.envImpact s) "very_high" then 1%nat
            else 0%nat).
  assert (Hh : (h <= 1)%nat).
  { unfold h. destruct (string_dec _ _); [lia|].
    destruct (string_dec _ _); lia. }
  generalize dependent h. intros h Hh.
  destruct (Nat.ltb_spec 2 (highCount before + highCount after));
    destruct (Nat.ltb_spec 0 (highCount before + highCount after));
    destruct (Nat.ltb_spec 5 (List.length before + List.length after));
    destruct (Nat.ltb_spec 2 (highCount before + (h + highCount after)));
    destruct (Nat.ltb_spec 0 (highCount before + (h + highCount after)));
    destruct (Nat.ltb_spec 5 (List.length before + S (List.length after)));
    try lia; vm_compute; lia.
Qed.

Lemma highCount_Permutation (a b : list Step.t) :
  Permutation a b -> highCount a = highCount b.
Proof.
  intros H. induction H as [|x l l' H IH|x y l|l l' l'' H1 IH1 H2 IH2];
    simpl; lia.
Qed.

(** X11.  The order of the steps does not matter to the risk level, nor to
    which chemicals are listed. *)
Theorem summarize_Permutation (a b : list Step.t) :
  Permutation a b ->
  riskLevel (summarize a) = riskLevel (summarize b)
  /\ (forall c, In c (chemicals (summarize a))
                <-> In c (chemicals (summarize b))).
Proof.
  intros H. split.
  - rewrite !riskLevel_cases.
    rewrite (highCount_Permutation a b H), (Permutation_length H).
    reflexivity.
  - intros c. rewrite !chemicals_summarize, !Set_spread_In, !in_flat_map.
    split; intros [s [Hs Hc]]; exists s; split; try exact Hc.
    + apply (Permutation_in s H Hs).
    + apply (Permutation_in s (Permutation_sym H) Hs).
Qed.

Lemma summarize_Permutation_witness :
  riskLevel (summarize [cvd_oxide; ald_hfO2])
  = riskLevel (summarize [ald_hfO2; cvd_oxide]).
Proof.
  apply (summarize_Permutation [cvd_oxide; ald_hfO2] [ald_hfO2; cvd_oxide]).
  apply perm_swap.
Defined.

Lemma Set_add_fold_extends (b acc : list string) :
  exists extra : list string,
    fold_left Set_add b acc = acc ++ extra
    /\ (forall c, In c extra -> In c b /\ ~ In c acc).
Proof.
  revert acc. induction b as [|x b IH]; intros acc; simpl.
  - exists []. rewrite app_nil_r. split; [reflexivity|intros c []].
  - destruct (IH (Set_add acc x)) as [extra [E Hx]]. unfold Set_add in *.
    destruct (includes acc x) eqn:I.
    + exists extra. split; [exact E|].
      intros c Hc. destruct (Hx c Hc) as [H1 H2]. split; [right; exact H1|exact H2].
    + exists (x :: extra). rewrite E, <- app_assoc. split; [reflexivity|].
      intros c [<-|Hc].
      * split; [left; reflexivity|].
        intros H. apply includes_In in H. congruence.
      * destruct (Hx c Hc) as [H1 H2]. split; [right; exact H1|].
        intros H. apply H2. apply in_or_app. left. exact H.
Qed.

(** X12.  Adding a step keeps the chemicals listed so far in their places
    and lists after them only chemicals of the new step that were not
    listed. *)
Theorem chemicals_append (sequence : list Step.t) (s : Step.t) :
  exists extra : list string,
    chemicals (summarize (sequence ++ [s]))
    = chemicals (summarize sequence) ++ extra
    /\ (forall c, In c extra ->
          In c (Step.chemicals s)
          /\ ~ In c (chemicals (summarize sequence))).
Proof.
  rewrite !chemicals_summarize, flat_map_app. simpl. rewrite app_nil_r.
  unfold Set_spread. rewrite fold_left_app.
  apply Set_add_fold_extends.
Qed.

(** ** Printing and parsing numbers *)

Lemma uint_value_pos (d : Decimal.uint) (acc : positive) :
  uint_value d (Zpos acc) = Zpos (Pos.of_uint_acc d acc).
Proof.
  revert acc.
  induction d as [|d IH|d IH|d IH|d IH|d IH|d IH|d IH|d IH|d IH|d IH];
    intros acc; cbn [uint_value Pos.of_uint_acc]; [reflexivity|..];
    rewrite <- IH; f_equal; lia.
Qed.

Lemma uint_value_0 (d : Decimal.uint) :
  uint_value d 0 = Z.of_N (Pos.of_uint d).
Proof.
  induction d as [|d IH|d IH|d IH|d IH|d IH|d IH|d IH|d IH|d IH|d IH];
    simpl; [reflexivity|exact IH|..]; apply uint_value_pos.
Qed.

Lemma uint_value_to_uint (p : positive) : uint_value (Pos.to_uint p) 0 = Zpos p.
Proof.
  rewrite uint_value_0, DecimalPos.Unsigned.of_to. reflexivity.
Qed.

Lemma take_digits_uint (d : Decimal.uint) (rest : list ascii) (acc count : Z) :
  ends_number rest = true ->
  exists n : Z,
    take_digits (chars (NilEmpty.string_of_uint d) ++ rest) acc count
    = (uint_value d acc, n, rest).
Proof.
  intros Hr. revert acc count.
  induction d as [|d IH|d IH|d IH|d IH|d IH|d IH|d IH|d IH|d IH|d IH];
    intros acc count; simpl; try apply IH.
  exists count. destruct rest as [|c r]; [reflexivity|].
  simpl in *. destruct (digit_of c); [discriminate Hr|reflexivity].
Qed.

Lemma parse_fraction_none (i : Z) (rest : list ascii) :
  ends_number rest = true -> parse_fraction i rest = Some (i, 0, rest).
Proof.
  destruct rest as [|c r]; [reflexivity|]. simpl. intros H.
  destruct (digit_of c); [discriminate H|].
  destruct (Ascii.eqb c "."); [discriminate H|reflexivity].
Qed.

Lemma parse_exponent_none (rest : list ascii) :
  ends_number rest = true -> parse_exponent rest = Some (0, rest).
Proof.
  destruct rest as [|c r]; [reflexivity|]. simpl. intros H.
  destruct (digit_of c); [discriminate H|].
  destruct (Ascii.eqb c "."); [discriminate H|].
  destruct (Ascii.eqb c "e"); [discriminate H|].
  destruct (Ascii.eqb c "E"); [discriminate H|reflexivity].
Qed.

(** The digits of a positive number do not start with 0. *)
Lemma to_uint_head (p : positive) (d : Decimal.uint) :
  Pos.to_uint p <> Decimal.D0 d.
Proof.
  intros H.
  pose proof (DecimalPos.Unsigned.to_of (Pos.to_uint p)) as E.
  rewrite DecimalPos.Unsigned.of_to in E. simpl in E.
  rewrite H in E. unfold Decimal.unorm in E.
  destruct (Decimal.nzhead (Decimal.D0 d)) eqn:N;
    try (symmetry in E; exact (DecimalFacts.nzhead_nonzero _ _ (eq_trans N E))).
  injection E as E. subst d.
  apply (DecimalPos.Unsigned.to_uint_nonzero p). exact H.
Qed.

(** The digits of a positive number, read back after an optional sign. *)
Lemma parse_digits_of_positive (p : positive) (neg : bool) (rest : list ascii) :
  ends_number rest = true ->
  parse_number
    ((if neg then ["-"%char] else [])
     ++ chars (NilZero.string_of_uint (Pos.to_uint p)) ++ rest)
  = Some (JNum (if neg then Zneg p else Zpos p) 0, rest).
Proof.
  intros Hr.
  pose proof (uint_value_to_uint p) as V.
  pose proof (to_uint_head p) as Hh.
  pose proof (DecimalPos.Unsigned.to_uint_nonnil p) as Hn.
  destruct (Pos.to_uint p) as [|d|d|d|d|d|d|d|d|d|d];
    [congruence|exfalso; exact (Hh d eq_refl)|..];
    simpl in V;
    match goal with
    | V : uint_value d ?k = _ |- _ =>
        destruct (take_digits_uint d rest k 1 Hr) as [n E]
    end;
    destruct neg; unfold parse_number; simpl;
    rewrite E, (parse_fraction_none _ rest Hr), (parse_exponent_none rest Hr),
      V; reflexivity.
Qed.

Lemma parse_number_ToString_int (z : Z) (rest : list ascii) :
  ends_number rest = true ->
  parse_number (chars (ToString_int z) ++ rest) = Some (JNum z 0, rest).
Proof.
  intros Hr. destruct z as [|p|p].
  - unfold parse_number. simpl.
    rewrite (parse_fraction_none _ rest Hr), (parse_exponent_none rest Hr).
    reflexivity.
  - apply (parse_digits_of_positive p false rest Hr).
  - apply (parse_digits_of_positive p true rest Hr).
Qed.

Lemma ToString_int_head (z : Z) :
  exists c r, chars (ToString_int z) = c :: r /\ starts_number c = true.
Proof.
  assert (U : forall d, exists c r,
            chars (NilZero.string_of_uint d) = c :: r
            /\ starts_number c = true).
  { intros d. destruct d; simpl; eexists; eexists; split; reflexivity. }
  unfold ToString_int. destruct (Z.to_int z) as [d|d]; simpl.
  - apply U.
  - eexists. eexists. split; reflexivity.
Qed.

(** A text that starts like a number is read as a number. *)
Lemma parse_value_number (fuel : nat) (c : ascii) (r : list ascii) :
  starts_number c = true ->
  parse_value (S fuel) (c :: r)
  = match parse_number (c :: r) with
    | Some res => Ok res
    | None => SyntaxError
    end.
Proof.
  destruct c as [[] [] [] [] [] [] [] []]; intros H;
    try discriminate H; reflexivity.
Qed.

Lemma parse_value_ToString_int (fuel : nat) (z : Z) (rest : list ascii) :
  ends_number rest = true ->
  parse_value (S fuel) (chars (ToString_int z) ++ rest) = Ok (JNum z 0, rest).
Proof.
  intros Hr. pose proof (parse_number_ToString_int z rest Hr) as E.
  destruct (ToString_int_head z) as [c [r [Hc Hs]]].
  rewrite Hc in *. simpl app in *.
  rewrite (parse_value_number fuel c _ Hs), E. reflexivity.
Qed.

(** ** Printing and parsing strings *)

Lemma parse_string_escape_char (c : ascii) (rest acc : list ascii) :
  parse_string (chars (escape_char c) ++ rest) acc
  = parse_string rest (c :: acc).
Proof.
  destruct c as [[] [] [] [] [] [] [] []]; reflexivity.
Qed.

Lemma chars_concat_cons (x : string) (xs : list string) :
  chars (String.concat EmptyString (x :: xs))
  = chars x ++ chars (String.concat EmptyString xs).
Proof.
  destruct xs as [|y ys]; simpl.
  - rewrite app_nil_r. reflexivity.
  - rewrite chars_app. reflexivity.
Qed.

Lemma parse_string_escaped (l rest acc : list ascii) :
  parse_string
    (chars (String.concat EmptyString (map escape_char l))
     ++ "034"%char :: rest) acc
  = Ok (string_of_list_ascii (rev acc ++ l), rest).
Proof.
  revert acc. induction l as [|c l IH]; intros acc.
  - simpl. rewrite app_nil_r. reflexivity.
  - cbn [map]. rewrite chars_concat_cons, <- app_assoc.
    rewrite parse_string_escape_char, IH. simpl.
    rewrite <- app_assoc. reflexivity.
Qed.

(** A printed string, read back. *)
Lemma parse_string_quote (s : string) (rest : list ascii) :
  exists r,
    chars (quote s) ++ rest = "034"%char :: r
    /\ parse_string r [] = Ok (s, rest).
Proof.
  unfold quote. rewrite !chars_app. simpl. eexists. split; [reflexivity|].
  rewrite <- app_assoc. simpl.
  rewrite parse_string_escaped. simpl.
  rewrite string_of_list_ascii_of_string. reflexivity.
Qed.

(** ** Printing and parsing values *)

Lemma json_ind2 (P : json -> Prop) :
  P JNull -> (forall b, P (JBool b)) -> (forall m e, P (JNum m e)) ->
  (forall s, P (JStr s)) ->
  (forall l, Forall P l -> P (JArr l)) ->
  (forall ms, Forall (fun kv => P (snd kv)) ms -> P (JObj ms)) ->
  forall v, P v.
Proof.
  intros Hn Hb Hm Hs Ha Ho.
  fix IH 1. intros v. destruct v as [|b|m e|s|l|ms].
  - exact Hn.
  - apply Hb.
  - apply Hm.
  - apply Hs.
  - apply Ha. induction l as [|x r IHl]; constructor; [apply IH|exact IHl].
  - apply Ho. induction ms as [|[k x] r IHl]; constructor;
      [apply IH|exact IHl].
Qed.

Lemma skip_ws_app (ws l : list ascii) :
  all_ws ws = true -> skip_ws (ws ++ l) = skip_ws l.
Proof.
  induction ws as [|c ws IH]; intros H; [reflexivity|].
  simpl in *. apply andb_prop in H. destruct H as [Hc Hw].
  rewrite Hc. apply IH. exact Hw.
Qed.

Lemma parse_value_skip (fuel : nat) (ws l : list ascii) :
  all_ws ws = true -> parse_value fuel (ws ++ l) = parse_value fuel l.
Proof.
  intros H. destruct fuel as [|f]; [reflexivity|].
  simpl. rewrite (skip_ws_app ws l H). reflexivity.
Qed.

Lemma parse_members_skip (fuel : nat) (ws l : list ascii)
    (acc : list (string * json)) :
  all_ws ws = true -> parse_members fuel (ws ++ l) acc = parse_members fuel l acc.
Proof.
  intros H. destruct fuel as [|f]; [reflexivity|].
  simpl. rewrite (skip_ws_app ws l H). reflexivity.
Qed.

Lemma all_ws_app (a b : list ascii) :
  all_ws (a ++ b) = all_ws a && all_ws b.
Proof. unfold all_ws. apply forallb_app. Qed.

Lemma all_ws_inner (indent : string) :
  all_ws (chars indent) = true -> all_ws (chars (indent ++ "  ")) = true.
Proof.
  intros H. rewrite chars_app, all_ws_app, H. reflexivity.
Qed.

Lemma parse_value_str (fuel : nat) (r : list ascii) :
  parse_value (S fuel) ("034"%char :: r)
  = match parse_string r [] with
    | Ok (s, r') => Ok (JStr s, r')
    | SyntaxError => SyntaxError
    | Unsupported => Unsupported
    end.
Proof. reflexivity. Qed.

Lemma parse_value_arr (fuel : nat) (r : list ascii) (c : ascii)
    (t : list ascii) :
  skip_ws r = c :: t -> c <> "]"%char ->
  parse_value (S fuel) ("["%char :: r) = parse_elements fuel r [].
Proof.
  intros H Hc. cbn [parse_value skip_ws is_ws]. simpl.
  rewrite H.
  destruct c as [[] [] [] [] [] [] [] []]; try reflexivity. congruence.
Qed.

Lemma parse_value_obj (fuel : nat) (r : list ascii) (t : list ascii) :
  skip_ws r = "034"%char :: t ->
  parse_value (S fuel) ("{"%char :: r) = parse_members fuel r [].
Proof.
  intros H. cbn [parse_value skip_ws is_ws]. simpl.
  rewrite H. reflexivity.
Qed.

Lemma parse_elements_eq (fuel : nat) (l : list ascii) (acc : list json) :
  parse_elements (S fuel) l acc
  = match parse_value fuel l with
    | Ok (v, r) =>
        match skip_ws r with
        | ","%char :: r' => parse_elements fuel r' (acc ++ [v])
        | "]"%char :: r' => Ok (JArr (acc ++ [v]), r')
        | _ => SyntaxError
        end
    | SyntaxError => SyntaxError
    | Unsupported => Unsupported
    end.
Proof. reflexivity. Qed.

Lemma parse_members_eq (fuel : nat) (r : list ascii)
    (acc : list (string * json)) :
  parse_members (S fuel) ("034"%char :: r) acc
  = match parse_string r [] with
    | Ok (k, r1) =>
        match skip_ws r1 with
        | ":"%char :: r2 =>
            match parse_value fuel r2 with
            | Ok (v, r3) =>
                match skip_ws r3 with
                | ","%char :: r4 => parse_members fuel r4 (acc ++ [(k, v)])
                | "}"%char :: r4 => Ok (JObj (acc ++ [(k, v)]), r4)
                | _ => SyntaxError
                end
            | SyntaxError => SyntaxError
            | Unsupported => Unsupported
            end
        | _ => SyntaxError
        end
    | SyntaxError => SyntaxError
    | Unsupported => Unsupported
    end.
Proof. reflexivity. Qed.

Lemma chars_concat_sep (sep x y : string) (r : list string) :
  chars (String.concat sep (x :: y :: r))
  = chars x ++ chars sep ++ chars (String.concat sep (y :: r)).
Proof.
  cbn [String.concat]. rewrite !chars_app. reflexivity.
Qed.

(** The first character of a printed value is no white space and no
    closing bracket. *)
Lemma stringify_head (indent : string) (v : json) :
  exists c t,
    chars (stringify indent v) = c :: t
    /\ is_ws c = false /\ c <> "]"%char.
Proof.
  assert (N : forall z s, exists c t,
            chars (ToString_int z ++ s) = c :: t
            /\ is_ws c = false /\ c <> "]"%char).
  { intros z s. destruct (ToString_int_head z) as [c [r [Hc Hs]]].
    rewrite chars_app, Hc. exists c, (r ++ chars s).
    split; [reflexivity|].
    destruct c as [[] [] [] [] [] [] [] []]; try discriminate Hs;
      split; (reflexivity || discriminate). }
  destruct v as [|[]|m e|s|[|x r]|[|kv r]];
    try (eexists; eexists; split; [reflexivity|split;
           [reflexivity|discriminate]]).
  simpl. destruct (0 <=? e).
  - destruct (N (m * 10 ^ e) EmptyString) as [c [t [H1 H2]]].
    rewrite chars_app in H1. simpl in H1. rewrite app_nil_r in H1.
    exists c, t. split; assumption.
  - apply N.
Qed.

Lemma stringify_arr (indent : string) (x : json) (r : list json) (rest : list ascii) :
  chars (stringify indent (JArr (x :: r))) ++ rest
  = "["%char
    :: (chars nl ++ chars (indent ++ "  "))
       ++ chars (String.concat ("," ++ nl ++ (indent ++ "  "))
                   (map (stringify (indent ++ "  ")) (x :: r)))
       ++ chars (nl ++ indent ++ "]") ++ rest.
Proof.
  change (stringify indent (JArr (x :: r)))
    with ("[" ++ nl ++ (indent ++ "  ")
          ++ String.concat ("," ++ nl ++ (indent ++ "  "))
               (map (stringify (indent ++ "  ")) (x :: r))
          ++ nl ++ indent ++ "]")%string.
  rewrite !chars_app, <- !app_assoc. reflexivity.
Qed.

Lemma stringify_obj (indent : string) (kv : string * json)
    (r : list (string * json)) (rest : list ascii) :
  chars (stringify indent (JObj (kv :: r))) ++ rest
  = "{"%char
    :: (chars nl ++ chars (indent ++ "  "))
       ++ chars (String.concat ("," ++ nl ++ (indent ++ "  "))
                   (map (member_text (indent ++ "  ")) (kv :: r)))
       ++ chars (nl ++ indent ++ "}") ++ rest.
Proof.
  change (stringify indent (JObj (kv :: r)))
    with ("{" ++ nl ++ (indent ++ "  ")
          ++ String.concat ("," ++ nl ++ (indent ++ "  "))
               (map (member_text (indent ++ "  ")) (kv :: r))
          ++ nl ++ indent ++ "}")%string.
  rewrite !chars_app, <- !app_assoc. reflexivity.
Qed.

Lemma skip_ws_closing (indent : string) (c : ascii) (rest : list ascii) :
  all_ws (chars indent) = true -> is_ws c = false ->
  skip_ws (chars (nl ++ indent ++ String c EmptyString) ++ rest) = c :: rest.
Proof.
  intros Hi Hc. rewrite !chars_app, <- !app_assoc.
  rewrite (skip_ws_app (chars nl)) by reflexivity.
  rewrite (skip_ws_app (chars indent)) by exact Hi.
  simpl. rewrite Hc. reflexivity.
Qed.

Lemma skip_ws_head (c : ascii) (l : list ascii) :
  is_ws c = false -> skip_ws (c :: l) = c :: l.
Proof. intros H. simpl. rewrite H. reflexivity. Qed.

Lemma parse_elements_printed (inner indent : string) (rest : list ascii) :
  all_ws (chars inner) = true -> all_ws (chars indent) = true ->
  forall (r : list json) (x : json) (acc : list json) (fuel : nat)
         (ws : list ascii),
    all_ws ws = true -> reads_back x -> Forall reads_back r ->
    (list_sum (map (fun y => S (size y)) (x :: r)) < fuel)%nat ->
    parse_elements fuel
      (ws ++ chars (String.concat ("," ++ nl ++ inner)
                      (map (stringify inner) (x :: r)))
       ++ chars (nl ++ indent ++ "]") ++ rest) acc
    = Ok (JArr (acc ++ x :: r), rest).
Proof.
  intros Hin Hind.
  induction r as [|y r IH]; intros x acc fuel ws Hws Hx Hr Hf;
    (destruct fuel as [|f]; [simpl in Hf; lia|]);
    rewrite parse_elements_eq, (parse_value_skip f ws _ Hws).
  - cbn [map String.concat].
    rewrite (Hx inner _ f Hin); [|reflexivity|simpl in Hf; lia].
    rewrite (skip_ws_closing indent "]" rest Hind eq_refl). reflexivity.
  - cbn [map]. rewrite chars_concat_sep, <- !app_assoc.
    rewrite (chars_app "," (nl ++ inner)), <- !app_assoc.
    rewrite (Hx inner _ f Hin); [|reflexivity|simpl in Hf; lia].
    inversion Hr as [|? ? Hy Hr']; subst.
    change (chars ",") with [","%char]. cbn [app skip_ws is_ws].
    change (is_ws ","%char) with false. cbv iota.
    change (stringify inner y :: map (stringify inner) r)
      with (map (stringify inner) (y :: r)).
    rewrite (IH y (acc ++ [x]) f (chars (nl ++ inner))).
    + rewrite <- app_assoc. reflexivity.
    + rewrite chars_app, all_ws_app, Hin. reflexivity.
    + exact Hy.
    + exact Hr'.
    + simpl in Hf |- *. lia.
Qed.


Lemma parse_value_space (fuel : nat) (l : list ascii) :
  parse_value fuel (" "%char :: l) = parse_value fuel l.
Proof. apply (parse_value_skip fuel [" "%char] l). reflexivity. Qed.

Lemma parse_members_printed (inner indent : string) (rest : list ascii) :
  all_ws (chars inner) = true -> all_ws (chars indent) = true ->
  forall (r : list (string * json)) (kv : string * json)
         (acc : list (string * json)) (fuel : nat) (ws : list ascii),
    all_ws ws = true -> reads_back (snd kv) ->
    Forall (fun m => reads_back (snd m)) r ->
    (list_sum (map (fun m => let '(_, x) := m in S (size x)) (kv :: r))
     < fuel)%nat ->
    parse_members fuel
      (ws ++ chars (String.concat ("," ++ nl ++ inner)
                      (map (member_text inner) (kv :: r)))
       ++ chars (nl ++ indent ++ "}") ++ rest) acc
    = Ok (JObj (acc ++ kv :: r), rest).
Proof.
  intros Hin Hind.
  induction r as [|m r IH]; intros [k x] acc fuel ws Hws Hx Hr Hf;
    (destruct fuel as [|f]; [simpl in Hf; lia|]);
    rewrite (parse_members_skip (S f) ws _ _ Hws); simpl in Hx.
  - cbn [map String.concat member_text].
    rewrite (chars_app (quote k)), (chars_app ": "), <- !app_assoc.
    destruct (parse_string_quote k
                (chars ": " ++ chars (stringify inner x)
                 ++ chars (nl ++ indent ++ "}") ++ rest)) as [r0 [E0 E1]].
    rewrite E0, parse_members_eq, E1.
    change (chars ": ") with ([":"%char] ++ [" "%char]).
    rewrite <- !app_assoc. cbn [app skip_ws].
    change (is_ws ":"%char) with false. cbv iota.
    rewrite parse_value_space.
    rewrite (Hx inner _ f Hin); [|reflexivity|simpl in Hf; lia].
    rewrite (skip_ws_closing indent "}" rest Hind eq_refl). reflexivity.
  - cbn [map]. rewrite chars_concat_sep, <- !app_assoc.
    cbn [member_text].
    rewrite (chars_app (quote k)), (chars_app ": "), <- !app_assoc.
    rewrite (chars_app "," (nl ++ inner)), <- !app_assoc.
    match goal with
    | |- parse_members _ (chars (quote k) ++ ?t) _ = _ =>
        destruct (parse_string_quote k t) as [r0 [E0 E1]]
    end.
    rewrite E0, parse_members_eq, E1.
    change (chars ": ") with ([":"%char] ++ [" "%char]).
    rewrite <- !app_assoc. cbn [app skip_ws].
    change (is_ws ":"%char) with false. cbv iota.
    rewrite parse_value_space.
    rewrite (Hx inner _ f Hin); [|reflexivity|simpl in Hf; lia].
    inversion Hr as [|? ? Hy Hr']; subst.
    change (chars ",") with [","%char]. cbn [app skip_ws].
    change (is_ws ","%char) with false. cbv iota.
    change (member_text inner m :: map (member_text inner) r)
      with (map (member_text inner) (m :: r)).
    rewrite (IH m (acc ++ [(k, x)]) f (chars (nl ++ inner))).
    + rewrite <- app_assoc. reflexivity.
    + rewrite chars_app, all_ws_app, Hin. reflexivity.
    + exact Hy.
    + exact Hr'.
    + destruct m as [k' x']. simpl in Hf |- *. lia.
Qed.

Lemma chars_concat_head (sep a : string) (l : list string) :
  exists t, chars (String.concat sep (a :: l)) = chars a ++ t.
Proof.
  destruct l as [|b l].
  - exists []. simpl. rewrite app_nil_r. reflexivity.
  - rewrite chars_concat_sep. eexists. reflexivity.
Qed.

(** Every value with integer numbers is read back from its printed text. *)
Lemma integral_reads_back (v : json) : integral v -> reads_back v.
Proof.
  induction v as [|b|m e|s|l IH|ms IH] using json_ind2;
    intros Hv indent rest fuel Hi Hr Hf;
    (destruct fuel as [|f]; [lia|]).
  - reflexivity.
  - destruct b; reflexivity.
  - inversion Hv; subst. simpl.
    rewrite Z.mul_1_r. apply parse_value_ToString_int. exact Hr.
  - cbn [stringify]. destruct (parse_string_quote s rest) as [r0 [E0 E1]].
    rewrite E0, parse_value_str, E1. reflexivity.
  - assert (Hl : Forall reads_back l).
    { inversion Hv as [| | | |l' Hint|]; subst.
      rewrite Forall_forall in *. intros x Hx. apply IH; [exact Hx|].
      apply Hint. exact Hx. }
    destruct l as [|x r]; [reflexivity|].
    inversion Hl as [|? ? Hx Hr']; subst.
    rewrite stringify_arr.
    destruct (stringify_head (indent ++ "  ") x) as [c [t [Hc [Hw Hb]]]].
    destruct (chars_concat_head ("," ++ nl ++ (indent ++ "  "))
                (stringify (indent ++ "  ") x)
                (map (stringify (indent ++ "  ")) r)) as [t' Ht].
    rewrite (parse_value_arr f _ c
               (t ++ t' ++ chars (nl ++ indent ++ "]") ++ rest)).
    + apply (parse_elements_printed (indent ++ "  ") indent rest
               (all_ws_inner indent Hi) Hi r x [] f).
      * rewrite all_ws_app, (all_ws_inner indent Hi). reflexivity.
      * exact Hx.
      * exact Hr'.
      * simpl in Hf |- *. lia.
    + rewrite skip_ws_app.
      * cbn [map]. rewrite Ht, Hc, <- !app_assoc. cbn [app].
        apply skip_ws_head. exact Hw.
      * rewrite all_ws_app, (all_ws_inner indent Hi). reflexivity.
    + exact Hb.
  - assert (Hl : Forall (fun m => reads_back (snd m)) ms).
    { inversion Hv as [| | | | |ms' Hint]; subst.
      rewrite Forall_forall in *. intros x Hx. apply IH; [exact Hx|].
      apply Hint. exact Hx. }
    destruct ms as [|[k x] r]; [reflexivity|].
    inversion Hl as [|? ? Hx Hr']; subst.
    rewrite stringify_obj.
    destruct (chars_concat_head ("," ++ nl ++ (indent ++ "  "))
                (member_text (indent ++ "  ") (k, x))
                (map (member_text (indent ++ "  ")) r)) as [t' Ht].
    rewrite (parse_value_obj f _
               (chars (String.concat EmptyString
                         (map escape_char (chars k)))
                ++ chars dquote
                ++ chars (": " ++ stringify (indent ++ "  ") x)
                ++ t' ++ chars (nl ++ indent ++ "}") ++ rest)).
    + apply (parse_members_printed (indent ++ "  ") indent rest
               (all_ws_inner indent Hi) Hi r (k, x) [] f).
      * rewrite all_ws_app, (all_ws_inner indent Hi). reflexivity.
      * exact Hx.
      * exact Hr'.
      * simpl in Hf |- *. lia.
    + rewrite skip_ws_app.
      * cbn [map]. rewrite Ht. cbn [member_text]. unfold quote.
        rewrite !chars_app, <- !app_assoc. reflexivity.
      * rewrite all_ws_app, (all_ws_inner indent Hi). reflexivity.
Qed.

Lemma concat_length (sep : string) (ss : list string) :
  (1 <= List.length (chars sep))%nat ->
  (list_sum (map (fun t => S (List.length (chars t))) ss)
   <= List.length (chars (String.concat sep ss)) + 1)%nat.
Proof.
  intros Hs. induction ss as [|a ss IH]; [simpl; lia|].
  destruct ss as [|b ss].
  - simpl. lia.
  - rewrite chars_concat_sep, !length_app.
    unfold list_sum in *. cbn [map fold_right] in IH |- *. lia.
Qed.

Lemma list_sum_le {A : Type} (f g : A -> nat) (l : list A) :
  Forall (fun x => (f x <= g x)%nat) l ->
  (list_sum (map f l) <= list_sum (map g l))%nat.
Proof.
  intros H. induction H as [|x l Hx Hl IH]; simpl; lia.
Qed.

(** The fuel a printed value takes is at most the length of its text. *)
Lemma size_le_length (v : json) (indent : string) :
  (size v <= List.length (chars (stringify indent v)))%nat.
Proof.
  revert indent.
  induction v as [|b|m e|s|l IH|ms IH] using json_ind2; intros indent;
    try (simpl; lia).
  - destruct l as [|x r]; [simpl; lia|].
    pose proof (stringify_arr indent x r []) as E.
    rewrite app_nil_r in E. rewrite E. clear E.
    cbn [size List.length]. rewrite !length_app.
    pose proof (concat_length ("," ++ nl ++ (indent ++ "  "))
                  (map (stringify (indent ++ "  ")) (x :: r))
                  ltac:(simpl; lia)) as C.
    rewrite map_map in C.
    assert (S1 : (list_sum (map (fun y => S (size y)) (x :: r))
                  <= list_sum
                       (map (fun y =>
                               S (List.length
                                    (chars (stringify (indent ++ "  ") y))))
                          (x :: r)))%nat).
    { apply list_sum_le. rewrite Forall_forall in *. intros y Hy.
      specialize (IH y Hy (indent ++ "  ")%string). lia. }
    simpl List.length at 1. lia.
  - destruct ms as [|kv r]; [simpl; lia|].
    pose proof (stringify_obj indent kv r []) as E.
    rewrite app_nil_r in E. rewrite E. clear E.
    cbn [size List.length]. rewrite !length_app.
    pose proof (concat_length ("," ++ nl ++ (indent ++ "  "))
                  (map (member_text (indent ++ "  ")) (kv :: r))
                  ltac:(simpl; lia)) as C.
    rewrite map_map in C.
    assert (S1 : (list_sum
                    (map (fun m => let '(_, y) := m in S (size y)) (kv :: r))
                  <= list_sum
                       (map (fun m =>
                               S (List.length
                                    (chars (member_text (indent ++ "  ") m))))
                          (kv :: r)))%nat).
    { apply list_sum_le. rewrite Forall_forall in *. intros [k y] Hy.
      specialize (IH (k, y) Hy (indent ++ "  ")%string). simpl in IH.
      cbn [member_text]. rewrite !chars_app, !length_app. lia. }
    simpl List.length at 1. lia.
Qed.

Lemma JSON_parse_stringify_integral (v : json) :
  integral v -> JSON_parse (JSON_stringify v) = Ok v.
Proof.
  intros Hv. unfold JSON_parse, JSON_stringify.
  pose proof (integral_reads_back v Hv EmptyString []
                (2 * List.length (chars (stringify EmptyString v)) + 2)%nat
                eq_refl eq_refl) as E.
  rewrite app_nil_r in E. rewrite E; [reflexivity|].
  pose proof (size_le_length v EmptyString). lia.
Qed.

(** X13.  A JSON value whose numbers are integers, printed by
    [JSON.stringify(v, null, 2)] and read by [JSON.parse], is the value
    again. *)
Theorem JSON_parse_stringify (v : json) :
  integral v -> JSON_parse (JSON_stringify v) = Ok v.
Proof.
  intros Hv. apply JSON_parse_stringify_integral. exact Hv.
Qed.

Lemma JSON_parse_stringify_witness :
  JSON_parse
    (JSON_stringify (JObj [("a"%string, JArr [JNum 1 0; JStr "b"; JNull])]))
  = Ok (JObj [("a"%string, JArr [JNum 1 0; JStr "b"; JNull])]).
Proof.
  apply (JSON_parse_stringify
           (JObj [("a"%string, JArr [JNum 1 0; JStr "b"; JNull])])).
  repeat constructor.
Defined.

(** ** Import of an exported flow *)

Lemma integral_json_of_step (s : Step.t) : integral (json_of_step s).
Proof.
  unfold json_of_step. constructor.
  apply Forall_app. split.
  - repeat constructor. simpl.
    induction (Step.chemicals s) as [|c l IH]; constructor;
      [constructor|exact IH].
  - destruct (Step.stepIndex s); repeat constructor.
Qed.

Lemma integral_json_of_flow (f : Flow.t) : integral (json_of_flow f).
Proof.
  unfold json_of_flow. constructor.
  apply Forall_app. split; [repeat constructor|].
  apply Forall_app. split; [|repeat constructor].
  destruct (Flow.steps f) as [l|]; [|constructor].
  repeat constructor. simpl.
  induction l as [|s l IH]; constructor;
    [apply integral_json_of_step|exact IH].
Qed.

Lemma int_of_num_safe (z : Z) :
  safe_integer z -> int_of_num z 0 = Some z.
Proof.
  unfold safe_integer. intros H. unfold int_of_num.
  change (0 <=? 0) with true. cbv iota.
  change (10 ^ 0) with 1. rewrite Z.mul_1_r.
  apply Z.ltb_lt in H. rewrite H. reflexivity.
Qed.

Lemma as_int_safe (z : Z) :
  safe_integer z -> as_int (Some (JNum z 0)) = Some z.
Proof. apply int_of_num_safe. Qed.

Lemma as_strings_JStr (l : list string) :
  as_strings (Some (JArr (map JStr l))) = Some l.
Proof.
  unfold as_strings. rewrite map_map. simpl.
  induction l as [|c l IH]; [reflexivity|]. simpl. rewrite IH. reflexivity.
Qed.

Lemma step_of_json_of_step (s : Step.t) :
  step_safe s -> step_of_json (json_of_step s) = Some s.
Proof.
  destruct s as [i n d p c t e x]. unfold step_safe. simpl.
  intros [Hd [Hp [Ht Hx]]].
  unfold json_of_step, step_of_json.
  cbn [Step.id Step.name Step.duration Step.power Step.chemicals
       Step.temperature Step.envImpact Step.stepIndex].
  destruct x as [k|]; cbn [app get String.eqb Ascii.eqb Bool.eqb];
    cbn [as_string]; rewrite !as_int_safe by assumption;
    rewrite as_strings_JStr; rewrite ?int_of_num_safe by assumption;
    reflexivity.
Qed.

Lemma steps_of_json_of_steps (l : list Step.t) :
  Forall step_safe l ->
  steps_of_json (Some (JArr (map json_of_step l))) = Some (Some l).
Proof.
  intros H. unfold steps_of_json. rewrite map_map.
  assert (E : all_some (map (fun s => step_of_json (json_of_step s)) l)
              = Some l).
  { induction H as [|s l Hs Hl IH]; [reflexivity|].
    cbn [map all_some]. rewrite (step_of_json_of_step s Hs), IH.
    reflexivity. }
  rewrite E. reflexivity.
Qed.

Lemma flow_of_object_json_of_flow (f : Flow.t) (now : Z) (iso : string) :
  flow_safe f ->
  match json_of_flow f with
  | JObj ms => flow_of_object ms now iso = Some (reimported f now iso)
  | _ => False
  end.
Proof.
  destruct f as [i n d ss c m]. unfold flow_safe, reimported. simpl.
  intros H. unfold flow_of_object.
  destruct ss as [l|]; cbn [app get String.eqb Ascii.eqb Bool.eqb];
    cbn [as_string].
  - rewrite (steps_of_json_of_steps l H). reflexivity.
  - reflexivity.
Qed.

(** X14.  Exporting the current flow and importing the text gives the flow
    back under the new [id] and [modifiedAt]: it is added after the saved
    flows and made current, with the name, description, steps and creation
    time it had, and its steps are the selected steps.  (The number fields
    of the steps are integers below 2^53 in magnitude.) *)
Theorem importFlow_exportFlow
    (st : State) (cf : Flow.t) (now : Z) (iso : string) :
  currentFlow st = Some cf ->
  flow_safe cf ->
  importFlow st now iso (exportFlow st)
  = Some ({| flows := flows st ++ [reimported cf now iso];
             currentFlow := Some (reimported cf now iso);
             selectedSteps := or_empty (Flow.steps cf) |}, None).
Proof.
  intros Hc Hs. unfold exportFlow, importFlow. rewrite Hc.
  rewrite (JSON_parse_stringify_integral _ (integral_json_of_flow cf)).
  pose proof (flow_of_object_json_of_flow cf now iso Hs) as E.
  destruct (json_of_flow cf) as [| | | | |ms]; try contradiction.
  rewrite E. reflexivity.
Qed.

Lemma importFlow_exportFlow_witness :
  importFlow state_three 2000 iso1 (exportFlow state_three)
  = Some ({| flows := flows state_three
                      ++ [reimported
                            (withSteps
                               (Flow.mk 1000 "Process Flow 1" EmptyString
                                  (Some []) iso0 iso0)
                               (selectedSteps state_three) iso1)
                            2000 iso1];
             currentFlow :=
               Some (reimported
                       (withSteps
                          (Flow.mk 1000 "Process Flow 1" EmptyString
                             (Some []) iso0 iso0)
                          (selectedSteps state_three) iso1)
                       2000 iso1);
             selectedSteps :=
               or_empty
                 (Flow.steps
                    (withSteps
                       (Flow.mk 1000 "Process Flow 1" EmptyString
                          (Some []) iso0 iso0)
                       (selectedSteps state_three) iso1)) |}, None).
Proof.
  apply (importFlow_exportFlow state_three
           (withSteps
              (Flow.mk 1000 "Process Flow 1" EmptyString (Some []) iso0 iso0)
              (selectedSteps state_three) iso1) 2000 iso1).
  - reflexivity.
  - unfold flow_safe, step_safe, safe_integer. simpl.
    repeat constructor.
Defined.

(** X15.  The text that [exportFlow] offers for download is always JSON:
    [JSON.parse] reads it, and reads the properties of the current flow. *)
Theorem exportFlow_is_JSON (st : State) (text : string) :
  exportFlow st = Some text ->
  exists cf : Flow.t,
    currentFlow st = Some cf /\ JSON_parse text = Ok (json_of_flow cf).
Proof.
  unfold exportFlow. destruct (currentFlow st) as [cf|]; [|discriminate].
  intros H. injection H as <-. exists cf. split; [reflexivity|].
  apply JSON_parse_stringify_integral. apply integral_json_of_flow.
Qed.

Lemma exportFlow_is_JSON_witness :
  exists cf : Flow.t,
    currentFlow state_new = Some cf
    /\ JSON_parse (JSON_stringify (json_of_flow
                     (Flow.mk 1000 "Process Flow 1" EmptyString (Some [])
                        iso0 iso0)))
       = Ok (json_of_flow cf).
Proof.
  apply (exportFlow_is_JSON state_new
           (JSON_stringify (json_of_flow
              (Flow.mk 1000 "Process Flow 1" EmptyString (Some []) iso0 iso0)))).
  reflexivity.
Defined.

(** ** Saving, creating and selecting *)

(** X16.  [saveFlow] with a name that is not empty renames the current
    flow, in place among the saved flows when their ids are pairwise
    distinct, and leaves its steps and the selected steps as they are;
    when the prompt is cancelled or left empty nothing changes. *)
Theorem saveFlow_renames_current
    (st : State) (cf : Flow.t) (before after : list Flow.t)
    (c : ascii) (a : string) (iso : string) :
  currentFlow st = Some cf ->
  flows st = before ++ cf :: after ->
  NoDup (map Flow.id (flows st)) ->
  let renamed :=
    {| Flow.id := Flow.id cf;
       Flow.name := String c a;
       Flow.description := Flow.description cf;
       Flow.steps := Flow.steps cf;
       Flow.createdAt := Flow.createdAt cf;
       Flow.modifiedAt := iso |} in
  saveFlow st (Some (String c a)) iso
  = {| flows := before ++ renamed :: after;
       currentFlow := Some renamed;
       selectedSteps := selectedSteps st |}
  /\ saveFlow st None iso = st
  /\ saveFlow st (Some EmptyString) iso = st.
Proof.
  intros Hc Hf Hn. cbv zeta. unfold saveFlow. rewrite Hc.
  split; [|split; reflexivity].
  f_equal. rewrite Hf in *. apply replaceFlow_unique. exact Hn.
Qed.

Lemma saveFlow_renames_current_witness :
  currentFlow (saveFlow state_new (Some "Gate stack"%string) iso1)
  = Some (Flow.mk 1000 "Gate stack" EmptyString (Some []) iso0 iso1).
Proof.
  assert (E := saveFlow_renames_current state_new
                 (Flow.mk 1000 "Process Flow 1" EmptyString (Some []) iso0 iso0)
                 [] [] "G"%char "ate stack" iso1).
  cbv zeta in E. destruct E as [E _].
  - reflexivity.
  - reflexivity.
  - vm_compute. constructor; [intros H; destruct H|constructor].
  - rewrite E. reflexivity.
Defined.

(** X17.  After [createNewFlow], a click on the flow that was current
    brings it back with the steps that were selected. *)
Theorem createNewFlow_then_select_previous
    (st : State) (cf : Flow.t) (k : nat) (now : Z) (iso1 iso2 : string) :
  consistent st ->
  currentFlow st = Some cf ->
  nth_error (flows st) k = Some cf ->
  handle (createNewFlow st now iso1 iso2) (SelectFlow k)
  = Some {| flows := flows (createNewFlow st now iso1 iso2);
            currentFlow := Some cf;
            selectedSteps := selectedSteps st |}.
Proof.
  unfold consistent. intros Hc Hcf Hk. rewrite Hcf in Hc.
  destruct Hc as [_ Hs].
  assert (Hlt : (k < List.length (flows st))%nat).
  { apply nth_error_Some. rewrite Hk. discriminate. }
  cbn [handle createNewFlow flows].
  rewrite (nth_error_app1 _ _ Hlt), Hk. simpl.
  unfold selectFlow. simpl. rewrite Hs. reflexivity.
Qed.

Lemma createNewFlow_then_select_previous_witness :
  option_map selectedSteps
    (handle (createNewFlow state_three 2000 iso1 iso1) (SelectFlow 0))
  = Some (selectedSteps state_three).
Proof.
  rewrite (createNewFlow_then_select_previous state_three
             (withSteps
                (Flow.mk 1000 "Process Flow 1" EmptyString (Some []) iso0 iso0)
                (selectedSteps state_three) iso1) 0 2000 iso1 iso1).
  - reflexivity.
  - split; [left; reflexivity|reflexivity].
  - reflexivity.
  - reflexivity.
Defined.

Lemma without_last {A : Type} (l : list A) (x : A) :
  without (List.length l) (l ++ [x]) = l.
Proof.
  induction l as [|a l IH]; [reflexivity|].
  unfold without in *. simpl. f_equal. exact IH.
Qed.

(** X18.  A step added and then removed at the last index leaves the
    selected steps as they were. *)
Theorem addStepToFlow_then_removeStep
    (st : State) (cf : Flow.t) (now : Z) (iso iso' : string) (step : Step.t) :
  currentFlow st = Some cf ->
  selectedSteps
    (removeStep (addStepToFlow st now iso step) iso'
       (Z.of_nat (List.length (selectedSteps st))))
  = selectedSteps st.
Proof.
  intros Hc.
  assert (E : selectedSteps (addStepToFlow st now iso step)
              = selectedSteps st
                ++ [newStepOf step now (List.length (selectedSteps st))]).
  { unfold addStepToFlow. rewrite Hc. reflexivity. }
  rewrite removeStep_selectedSteps; rewrite E.
  - apply without_last.
  - rewrite length_app. simpl. lia.
Qed.

Lemma addStepToFlow_then_removeStep_witness :
  selectedSteps
    (removeStep (addStepToFlow state_three 1004 iso1 ald_hfO2) iso1
       (Z.of_nat (List.length (selectedSteps state_three))))
  = selectedSteps state_three.
Proof.
  apply (addStepToFlow_then_removeStep state_three
           (withSteps
              (Flow.mk 1000 "Process Flow 1" EmptyString (Some []) iso0 iso0)
              (selectedSteps state_three) iso1)).
  reflexivity.
Defined.

(** ** The shape of the total energy *)

Lemma digit_string (r : Z) :
  0 <= r < 10 ->
  exists d : ascii,
    ToString_int r = String d EmptyString /\ digit_of d <> None.
Proof.
  intros H.
  assert (C : r = 0 \/ r = 1 \/ r = 2 \/ r = 3 \/ r = 4 \/ r = 5 \/ r = 6
              \/ r = 7 \/ r = 8 \/ r = 9) by lia.
  repeat (destruct C as [->|C]; [eexists; split; [reflexivity|discriminate]|]).
  subst r. eexists. split; [reflexivity|discriminate].
Qed.

(** X19.  For a sequence that is not empty whose energy sum is zero, or
    finite and below 10^21 in magnitude, the total energy is a string that
    ends with a point and exactly one digit.  (From 10^21 on [toFixed]
    prints the number as [ToString] does, as in [1e+21], which is not
    computed here.) *)
Theorem totalEnergy_one_decimal (sequence : list Step.t) :
  sequence <> [] ->
  (forall (s : bool) (m : positive) (e : Z),
     Prim2SF (energySum sequence) = S754_finite s m e ->
     Zpos m * 2 ^ Z.max 0 e < 10 ^ 21 * 2 ^ Z.max 0 (- e) ->
     exists (a : string) (d : ascii),
       totalEnergy (summarize sequence)
       = Some (JSString (a ++ "." ++ String d EmptyString))
       /\ digit_of d <> None)
  /\ (forall s : bool,
        Prim2SF (energySum sequence) = S754_zero s ->
        exists (a : string) (d : ascii),
          totalEnergy (summarize sequence)
          = Some (JSString (a ++ "." ++ String d EmptyString))
          /\ digit_of d <> None).
Proof.
  intros Hne. rewrite (totalEnergy_nonempty sequence Hne).
  unfold toFixed1. split.
  - intros s m e Hx Hlt. rewrite Hx.
    assert (G : ge_1e21 (Zpos m) e = false).
    { unfold ge_1e21. apply Z.leb_gt. exact Hlt. }
    rewrite G. unfold fixed1_digits.
    destruct (digit_string (nearest_tenths (Zpos m) e mod 10)
                (Z.mod_pos_bound _ 10 ltac:(lia))) as [d [Ed Hd]].
    rewrite Ed. destruct s.
    + exists ("-" ++ ToString_int (nearest_tenths (Zpos m) e / 10))%string, d.
      split; [reflexivity|exact Hd].
    + exists (ToString_int (nearest_tenths (Zpos m) e / 10)), d.
      split; [reflexivity|exact Hd].
  - intros s Hx. rewrite Hx.
    exists "0"%string, "0"%char. split; [reflexivity|discriminate].
Qed.

Lemma totalEnergy_one_decimal_witness :
  exists (a : string) (d : ascii),
    totalEnergy (summarize [rca_clean; cvd_oxide])
    = Some (JSString (a ++ "." ++ String d EmptyString))
    /\ digit_of d <> None.
Proof.
  assert (Hne : [rca_clean; cvd_oxide] <> []) by (intros H; discriminate H).
  destruct (totalEnergy_one_decimal [rca_clean; cvd_oxide] Hne) as [Hfin _].
  destruct (Prim2SF (energySum [rca_clean; cvd_oxide])) as [s|s| |s m e] eqn:E;
    try (vm_compute in E; discriminate E).
  apply (Hfin s m e eq_refl).
  vm_compute in E. injection E as _ <- <-. vm_compute. reflexivity.
Defined.
